(** * ReportActions: the report-action cache and its derived views

    A shallow embedding of [src/libs/actions/ReportActions.js] and a
    verification of its documented behaviour.

    The JavaScript module keeps two module-level objects
    ([reportActionsMaxSequenceNumbers] and [reportActions]), fills them from an
    Onyx subscription callback, answers three queries from them and issues
    merge requests to the Onyx store.  The embedding keeps that shape: a
    [World] holds the heap of action objects, the two module-level objects
    and the store requests issued so far, and every function of the module is
    a computation over it.

    The functions of underscore and lodash that the module calls are embedded
    at the types the module uses them at; the constants and helpers it imports
    from the rest of the application are parameters ([Imports]). *)

From Stdlib Require Import ZArith Lia.
From stdpp Require Import base option list sorting strings gmap.

#[local] Open Scope string_scope.
#[local] Open Scope list_scope.
#[local] Open Scope Z_scope.

(** ** JavaScript values used by the module *)

Module Js.

(** A property slot that distinguishes [undefined], [null] and a value. *)
Inductive nullable (A : Type) : Type :=
| Undefined
| Null
| Value (a : A).
Arguments Undefined {A}.
Arguments Null {A}.
Arguments Value {A} a.

#[global] Instance nullable_eq_dec {A} `{EqDecision A} : EqDecision (nullable A).
Proof. solve_decision. Defined.

(** Property keys of the per-report collections.  A key is the string
    rendering of a [sequenceNumber]: a decimal integer, or ["undefined"] when
    the action carries none. *)
Inductive Key : Type :=
| KNum (z : Z)
| KUndefined.

#[global] Instance Key_eq_dec : EqDecision Key.
Proof. solve_decision. Defined.

(** [String(sequenceNumber)] used as a property key. *)
Definition keyOf (sequenceNumber : option Z) : Key :=
  match sequenceNumber with
  | Some z => KNum z
  | None => KUndefined
  end.

(** A key is an array index when it is the canonical rendering of an integer
    in [0, 2^32 - 2]; own-property enumeration lists those first, in
    ascending numeric order, and every other key afterwards in creation
    order. *)
Definition arrayIndex (k : Key) : option Z :=
  match k with
  | KNum z => if (0 <=? z) && (z <=? 4294967294) then Some z else None
  | KUndefined => None
  end.

(** A plain object: its own properties in creation order. *)
Abbreviation Object A := (list (Key * A)).

(** [object[key]] *)
Fixpoint getProp {A} (object : Object A) (key : Key) : option A :=
  match object with
  | [] => None
  | (k, v) :: rest => if decide (k = key) then Some v else getProp rest key
  end.

(** [object[key] = value]: an existing property keeps its place, a new one
    is created last. *)
Fixpoint setProp {A} (object : Object A) (key : Key) (value : A) : Object A :=
  match object with
  | [] => [(key, value)]
  | (k, v) :: rest =>
      if decide (k = key) then (key, value) :: rest
      else (k, v) :: setProp rest key value
  end.

(** [delete object[key]] *)
Fixpoint deleteProp {A} (object : Object A) (key : Key) : Object A :=
  match object with
  | [] => []
  | (k, v) :: rest =>
      if decide (k = key) then deleteProp rest key
      else (k, v) :: deleteProp rest key
  end.

(** Insertion of an index-keyed property into the ascending run. *)
Fixpoint insertIndexed {A} (i : Z) (entry : Key * A)
    (run : list (Z * (Key * A))) : list (Z * (Key * A)) :=
  match run with
  | [] => [(i, entry)]
  | (j, e) :: rest =>
      if i <? j then (i, entry) :: run
      else (j, e) :: insertIndexed i entry rest
  end.

Definition indexedEntries {A} (object : Object A) : list (Z * (Key * A)) :=
  fold_right
    (fun entry run =>
       match arrayIndex entry.1 with
       | Some i => insertIndexed i entry run
       | None => run
       end)
    [] object.

Definition namedEntries {A} (object : Object A) : Object A :=
  filter (fun entry => arrayIndex entry.1 = None) object.

(** The own enumerable properties in the order [Object.keys] lists them. *)
Definition ownEntries {A} (object : Object A) : Object A :=
  (indexedEntries object).*2 ++ namedEntries object.

(** [array[index]] with a numeric index: [undefined] outside the array. *)
Definition at_ {A} (array : list A) (index : Z) : option A :=
  if index <? 0 then None else array !! Z.to_nat index.

(** Truthiness of an optional boolean property ([undefined] is falsy). *)
Definition truthy (b : option bool) : bool := default false b.

(** [a <= b] where [a] may be [undefined]: the comparison with
    [undefined] is false. *)
Definition le (a : option Z) (b : Z) : bool :=
  match a with
  | Some z => z <=? b
  | None => false
  end.

(** [!key] is false exactly for a non-empty string: [undefined], [null] and
    [""] are falsy. *)
Definition truthyString (s : option string) : bool :=
  match s with
  | Some x => negb (bool_decide (x = ""))
  | None => false
  end.

End Js.

(** ** The underscore functions the module calls *)

Module Underscore.

(** [_.toArray(object)]: the property values in enumeration order. *)
Definition toArray {A} (object : Js.Object A) : list A :=
  (Js.ownEntries object).*2.

(** The loop of [_.findLastIndex]: [index] runs from [n - 1] down to [0]. *)
Fixpoint findLastIndexBelow {A} (array : list A) (predicate : A -> bool)
    (n : nat) : Z :=
  match n with
  | O => -1
  | S index =>
      match array !! index with
      | Some x =>
          if predicate x then Z.of_nat index
          else findLastIndexBelow array predicate index
      | None => findLastIndexBelow array predicate index
      end
  end.

(** [_.findLastIndex(array, predicate)] *)
Definition findLastIndex {A} (array : list A) (predicate : A -> bool) : Z :=
  findLastIndexBelow array predicate (length array).

(** [_.indexBy(list, iteratee)]; an [undefined] list yields [{}]. *)
Definition indexBy {A} (list : option (list A)) (iteratee : A -> Js.Key)
    : Js.Object A :=
  fold_left (fun result value => Js.setProp result (iteratee value) value)
    (default [] list) [].

(** [_.reduce(list, iteratee, memo)] *)
Definition reduce {A B} (list : list A) (iteratee : B -> A -> B) (memo : B)
    : B :=
  fold_left iteratee list memo.

(** [_.first(array)]; [undefined] for [null] and for the empty array. *)
Definition first {A} (array : option (list A)) : option A :=
  match array with
  | Some (x :: _) => Some x
  | _ => None
  end.

(** [_.isEmpty(string)] *)
Definition isEmpty (s : string) : bool := bool_decide (s = "").

End Underscore.

(** ** The lodash functions the module calls *)

Module Lodash.

(** One step of a path: [undefined] when there is no object to read
    from, the property otherwise. *)
Definition step {A B} (object : option A) (property : A -> option B)
    : option B :=
  match object with
  | Some a => property a
  | None => None
  end.

(** [_.get(object, path, defaultValue)]: the path is resolved step by step;
    the default stands in for an [undefined] result. *)
Definition get {A} (resolved : option A) (defaultValue : A) : A :=
  default defaultValue resolved.

(** A source property that is [undefined] is skipped. *)
Definition mergeValue {A} (objValue srcValue : option A) : option A :=
  match srcValue with
  | Some v => Some v
  | None => objValue
  end.

(** [null] is a value and overrides; [undefined] is skipped. *)
Definition mergeNullable {A} (objValue srcValue : Js.nullable A)
    : Js.nullable A :=
  match srcValue with
  | Js.Undefined => objValue
  | _ => srcValue
  end.

(** Arrays merge index by index; the longer one keeps its tail. *)
Fixpoint mergeArray {A} (mergeDeep : A -> A -> A) (objValue srcValue : list A)
    : list A :=
  match objValue, srcValue with
  | o :: os, s :: ss => mergeDeep o s :: mergeArray mergeDeep os ss
  | [], ss => ss
  | os, [] => os
  end.

End Lodash.

(** ** Data model *)

(** One part of an action's message. *)
Record MessagePart : Type := {
  html : option string;
  text : option string;
}.

(** One entry of a report's action log.  Every property may be missing, which
    also makes the record the type of a partial action in a patch. *)
Record ReportAction : Type := {
  actionName : option string;
  sequenceNumber : option Z;
  message : option (list MessagePart);
  pendingAction : Js.nullable string;
  errors : Js.nullable string;
  isLoading : option bool;
}.

#[global] Instance MessagePart_eq_dec : EqDecision MessagePart.
Proof. solve_decision. Defined.

#[global] Instance ReportAction_eq_dec : EqDecision ReportAction.
Proof. solve_decision. Defined.

(** Deep merge of two message parts and of two actions, as [_.merge] does it
    property by property. *)
Definition mergeMessagePart (objValue srcValue : MessagePart) : MessagePart :=
  {| html := Lodash.mergeValue (html objValue) (html srcValue);
     text := Lodash.mergeValue (text objValue) (text srcValue) |}.

Definition mergeMessage (objValue srcValue : option (list MessagePart))
    : option (list MessagePart) :=
  match objValue, srcValue with
  | Some o, Some s => Some (Lodash.mergeArray mergeMessagePart o s)
  | _, Some s => Some s
  | _, None => objValue
  end.

Definition mergeReportAction (objValue srcValue : ReportAction) : ReportAction :=
  {| actionName := Lodash.mergeValue (actionName objValue) (actionName srcValue);
     sequenceNumber :=
       Lodash.mergeValue (sequenceNumber objValue) (sequenceNumber srcValue);
     message := mergeMessage (message objValue) (message srcValue);
     pendingAction :=
       Lodash.mergeNullable (pendingAction objValue) (pendingAction srcValue);
     errors := Lodash.mergeNullable (errors objValue) (errors srcValue);
     isLoading := Lodash.mergeValue (isLoading objValue) (isLoading srcValue) |}.

(** [{}] as an action: no property is set. *)
Definition emptyAction : ReportAction :=
  {| actionName := None; sequenceNumber := None; message := None;
     pendingAction := Js.Undefined; errors := Js.Undefined; isLoading := None |}.

(** ** What the module imports

    The constants of [CONST] and [ONYXKEYS] and the helper modules are defined
    elsewhere in the application; the module is verified for any values of
    them. *)
Class Imports : Type := {
  (** [CONST.REPORT.ACTIONS.TYPE.ADDCOMMENT] *)
  ADDCOMMENT : string;
  (** [CONST.RED_BRICK_ROAD_PENDING_ACTION.ADD] *)
  PENDING_ACTION_ADD : string;
  (** [ONYXKEYS.COLLECTION.REPORT_ACTIONS] *)
  COLLECTION_REPORT_ACTIONS : string;
  (** [CollectionUtils.extractCollectionItemID] *)
  extractCollectionItemID : string -> string;
  (** [ReportActionsUtils.isDeletedAction] *)
  isDeletedAction : ReportAction -> bool;
  (** [ExpensiMark.htmlToText] *)
  htmlToText : string -> string;
  (** [ReportUtils.formatReportLastMessageText] *)
  formatReportLastMessageText : string -> string;
}.

(** ** Module state and effects

    Action objects are shared by reference: the array kept for a report holds
    the very objects the store delivered, and [_.indexBy] files those same
    objects under their keys.  The embedding therefore keeps action objects in
    a heap and lets arrays and collections hold references into it, so that
    writing to an object is visible through every reference to it. *)

(** A reference to an action object: its index in the heap. *)
Abbreviation loc := nat.

(** The object a reference points to ([{}] for a reference to nothing). *)
Definition deref (h : list ReportAction) (ref : loc) : ReportAction :=
  default emptyAction (h !! ref).

(** A request [Onyx.merge(key, value)]; a [null] property value is
    [Js.Null]. *)
Record OnyxMerge : Type := {
  mergeKey : string;
  mergePatch : Js.Object (Js.nullable ReportAction);
}.

(** The heap of action objects, the two module-level objects and the store
    requests issued so far, oldest first. *)
Record World : Type := {
  heap : list ReportAction;
  reportActionsMaxSequenceNumbers : gmap string Z;
  reportActions : gmap string (list loc);
  onyxRequests : list OnyxMerge;
}.

(** Computations that read and write the world. *)
Definition Eff (A : Type) : Type := World -> A * World.

Definition ret {A} (a : A) : Eff A := fun w => (a, w).

Definition bind {A B} (m : Eff A) (k : A -> Eff B) : Eff B :=
  fun w => let (a, w') := m w in k a w'.

Notation "'let*' x ':=' m 'in' k" := (bind m (fun x => k))
  (at level 10, x name, m at level 100, k at level 200, only parsing).
Notation "m ';;' k" := (bind m (fun _ => k))
  (at level 100, k at level 200, right associativity, only parsing).
Notation "object '|.' property" := (Lodash.step object property)
  (at level 50, left associativity, only parsing).

Fixpoint foldM {A B} (f : B -> A -> Eff B) (l : list A) (b : B) : Eff B :=
  match l with
  | [] => ret b
  | x :: rest => let* b' := f b x in foldM f rest b'
  end.

(** Property reads go through the heap as it is now. *)
Definition heapNow : Eff (list ReportAction) := fun w => (heap w, w).

(** A new object with the given properties. *)
Definition alloc (value : ReportAction) : Eff loc :=
  fun w =>
    (length (heap w),
     {| heap := heap w ++ [value];
        reportActionsMaxSequenceNumbers := reportActionsMaxSequenceNumbers w;
        reportActions := reportActions w;
        onyxRequests := onyxRequests w |}).

(** Assignment to the properties of an existing object. *)
Definition store (ref : loc) (value : ReportAction) : Eff unit :=
  fun w =>
    (tt,
     {| heap := <[ref := value]> (heap w);
        reportActionsMaxSequenceNumbers := reportActionsMaxSequenceNumbers w;
        reportActions := reportActions w;
        onyxRequests := onyxRequests w |}).

(** [reportActions[reportID]] *)
Definition readReportActions (reportID : string) : Eff (option (list loc)) :=
  fun w => (reportActions w !! reportID, w).

(** [reportActions[reportID] = actionsArray] *)
Definition writeReportActions (reportID : string) (actionsArray : list loc)
    : Eff unit :=
  fun w =>
    (tt,
     {| heap := heap w;
        reportActionsMaxSequenceNumbers := reportActionsMaxSequenceNumbers w;
        reportActions := <[reportID := actionsArray]> (reportActions w);
        onyxRequests := onyxRequests w |}).

(** [reportActionsMaxSequenceNumbers[reportID] = n] *)
Definition writeMaxSequenceNumber (reportID : string) (n : Z) : Eff unit :=
  fun w =>
    (tt,
     {| heap := heap w;
        reportActionsMaxSequenceNumbers :=
          <[reportID := n]> (reportActionsMaxSequenceNumbers w);
        reportActions := reportActions w;
        onyxRequests := onyxRequests w |}).

(** [Onyx.merge(key, value)]: the request is handed to the store; the store
    applies it later and reports back through the subscription. *)
Definition Onyx_merge (key : string)
    (value : Js.Object (Js.nullable ReportAction)) : Eff unit :=
  fun w =>
    (tt,
     {| heap := heap w;
        reportActionsMaxSequenceNumbers := reportActionsMaxSequenceNumbers w;
        reportActions := reportActions w;
        onyxRequests :=
          onyxRequests w ++ [{| mergeKey := key; mergePatch := value |}] |}).

(** ** [_.merge] on collections of action objects *)

Module LodashMerge.

(** One property of a source.  A destination property that is already an
    object is merged in place; otherwise the source object is cloned and the
    clone assigned. *)
Definition assignMergeValue (object : Js.Object loc) (entry : Js.Key * loc)
    : Eff (Js.Object loc) :=
  let* h := heapNow in
  let srcValue := deref h entry.2 in
  match Js.getProp object entry.1 with
  | Some objRef =>
      store objRef (mergeReportAction (deref h objRef) srcValue) ;;
      ret object
  | None =>
      let* newValue := alloc srcValue in
      ret (Js.setProp object entry.1 newValue)
  end.

Definition baseMerge (object source : Js.Object loc) : Eff (Js.Object loc) :=
  foldM assignMergeValue (Js.ownEntries source) object.

(** [_.merge(object, ...sources)]: writes to [object] and to the objects it
    holds, reads the sources, and returns [object]. *)
Definition merge (object : Js.Object loc) (sources : list (Js.Object loc))
    : Eff (Js.Object loc) :=
  foldM baseMerge sources object.

End LodashMerge.

(** ** The module *)

Section ReportActions.

Context `{Imports}.

(** The callback of [Onyx.connect]. *)
Definition callback (actions : option (Js.Object loc)) (key : option string)
    : Eff unit :=
  match key, actions with
  | Some key', Some actions' =>
      if negb (Js.truthyString key) then ret tt
      else
        let reportID := extractCollectionItemID key' in
        let actionsArray := Underscore.toArray actions' in
        writeReportActions reportID actionsArray ;;
        let* h := heapNow in
        let mostRecentNonLoadingActionIndex :=
          Underscore.findLastIndex actionsArray
            (fun action => negb (Js.truthy (isLoading (deref h action)))) in
        let mostRecentAction :=
          Js.at_ actionsArray mostRecentNonLoadingActionIndex in
        match mostRecentAction with
        | None => ret tt
        | Some action =>
            match sequenceNumber (deref h action) with
            | None => ret tt
            | Some n => writeMaxSequenceNumber reportID n
            end
        end
  | _, _ => ret tt
  end.

(** Get the count of deleted messages after a sequence number of a report. *)
Definition getDeletedCommentsCount (reportID : string) (sequenceNumber' : Z)
    : Eff Z :=
  let* mirrored := readReportActions reportID in
  match mirrored with
  | None => ret 0
  | Some actions =>
      let* h := heapNow in
      ret (Underscore.reduce actions
             (fun numDeletedMessages ref =>
                let action := deref h ref in
                if bool_decide (actionName action <> Some ADDCOMMENT)
                   || Js.le (sequenceNumber action) sequenceNumber'
                then numDeletedMessages
                else
                  let message' := Underscore.first (message action) in
                  let html' := Lodash.get (message' |. html) "" in
                  if Underscore.isEmpty html' then numDeletedMessages + 1
                  else numDeletedMessages)
             0)
  end.

(** Get the message text for the last action that was not deleted. *)
Definition getLastVisibleMessageText (reportID : string)
    (actionsToMerge : option (Js.Object loc)) : Eff string :=
  let actionsToMerge' := default [] actionsToMerge in
  let* mirrored := readReportActions reportID in
  let* h := heapNow in
  let existingReportActions :=
    Underscore.indexBy mirrored
      (fun action => Js.keyOf (sequenceNumber (deref h action))) in
  let* merged :=
    LodashMerge.merge [] [existingReportActions; actionsToMerge'] in
  let actions := Underscore.toArray merged in
  let* h' := heapNow in
  let lastMessageIndex :=
    Underscore.findLastIndex actions
      (fun action => negb (isDeletedAction (deref h' action))) in
  let htmlText :=
    Lodash.get
      (Js.at_ actions lastMessageIndex
         |. (fun action => message (deref h' action)) |. head |. html)
      "" in
  let messageText := htmlToText htmlText in
  ret (formatReportLastMessageText messageText).

(** Get last reportAction in the chat that was not deleted. *)
Definition getLastVisibleReportAction (reportID : string)
    (actionsToMerge : option (Js.Object loc)) : Eff (option loc) :=
  let actionsToMerge' := default [] actionsToMerge in
  let* mirrored := readReportActions reportID in
  let* h := heapNow in
  let existingReportActions :=
    Underscore.indexBy mirrored
      (fun action => Js.keyOf (sequenceNumber (deref h action))) in
  let* merged :=
    LodashMerge.merge [] [existingReportActions; actionsToMerge'] in
  let actions := Underscore.toArray merged in
  let* h' := heapNow in
  let lastVisibleReportActionIndex :=
    Underscore.findLastIndex actions
      (fun action => negb (isDeletedAction (deref h' action))) in
  ret (Js.at_ actions lastVisibleReportActionIndex).

(** [updateReportActionMessage]: the continuation passed to [then] holds
    only a comment. *)
Definition updateReportActionMessage (reportID : string)
    (sequenceNumber' : Js.Key) (message' : MessagePart) : Eff unit :=
  let actionToMerge :=
    Js.setProp [] sequenceNumber'
      (Js.Value
         {| actionName := None; sequenceNumber := None;
            message := Some [message'];
            pendingAction := Js.Undefined; errors := Js.Undefined;
            isLoading := None |}) in
  Onyx_merge (COLLECTION_REPORT_ACTIONS +:+ reportID) actionToMerge.

Definition deleteOptimisticReportAction (reportID : string)
    (sequenceNumber' : Js.Key) (pendingAction' : Js.nullable string)
    : Eff unit :=
  if bool_decide (pendingAction' = Js.Value PENDING_ACTION_ADD) then
    Onyx_merge (COLLECTION_REPORT_ACTIONS +:+ reportID)
      [(sequenceNumber', Js.Null)]
  else
    Onyx_merge (COLLECTION_REPORT_ACTIONS +:+ reportID)
      [(sequenceNumber',
        Js.Value
          {| actionName := None; sequenceNumber := None; message := None;
             pendingAction := Js.Null; errors := Js.Null;
             isLoading := None |})].

End ReportActions.

(** ** The store, as far as the module relies on it *)

Module Onyx.

(** Modelled from the spec: the persisted key-value store is not part of the
    source.  Its merge is field-level: a field the partial value sets takes
    the partial value's contents, a field it leaves out stays as stored.  An
    array is a field value like any other, so a patched [message] becomes the
    array of the patch; it is not merged index by index as [_.merge] would
    do. *)
Definition mergeAction (stored partial : ReportAction) : ReportAction :=
  {| actionName := Lodash.mergeValue (actionName stored) (actionName partial);
     sequenceNumber :=
       Lodash.mergeValue (sequenceNumber stored) (sequenceNumber partial);
     message := Lodash.mergeValue (message stored) (message partial);
     pendingAction :=
       Lodash.mergeNullable (pendingAction stored) (pendingAction partial);
     errors := Lodash.mergeNullable (errors stored) (errors partial);
     isLoading := Lodash.mergeValue (isLoading stored) (isLoading partial) |}.

(** Modelled from the spec: [merge(key, partialValue)] performs the
    field-level merge of the partial value into the stored collection, and a
    [null] value for a map entry deletes that entry. *)
Definition mergeEntry (collection : Js.Object ReportAction)
    (entry : Js.Key * Js.nullable ReportAction) : Js.Object ReportAction :=
  match entry.2 with
  | Js.Undefined => collection
  | Js.Null => Js.deleteProp collection entry.1
  | Js.Value partial =>
      match Js.getProp collection entry.1 with
      | Some stored =>
          Js.setProp collection entry.1 (mergeAction stored partial)
      | None => Js.setProp collection entry.1 partial
      end
  end.

Definition applyMerge (collection : Js.Object ReportAction)
    (patch : Js.Object (Js.nullable ReportAction)) : Js.Object ReportAction :=
  fold_left mergeEntry (Js.ownEntries patch) collection.

End Onyx.

(** New objects for the values of a collection, as the store and the callers
    of the queries create them before handing them over. *)
Definition allocObject (values : Js.Object ReportAction) : Eff (Js.Object loc) :=
  foldM
    (fun object entry =>
       let* ref := alloc entry.2 in ret (object ++ [(entry.1, ref)]))
    values [].

(** The store delivers the collection of a report to the subscriber. *)
Definition deliver `{Imports} (collection : Js.Object ReportAction)
    (key : string) : Eff unit :=
  let* actions := allocObject collection in
  callback (Some actions) (Some key).

(** ** Operations of the module, as a transition system *)

Inductive Operation : Type :=
| Callback (actions : option (Js.Object loc)) (key : option string)
| GetDeletedCommentsCount (reportID : string) (sequenceNumber' : Z)
| GetLastVisibleMessageText (reportID : string)
    (actionsToMerge : option (Js.Object loc))
| GetLastVisibleReportAction (reportID : string)
    (actionsToMerge : option (Js.Object loc))
| UpdateReportActionMessage (reportID : string) (sequenceNumber' : Js.Key)
    (message' : MessagePart)
| DeleteOptimisticReportAction (reportID : string) (sequenceNumber' : Js.Key)
    (pendingAction' : Js.nullable string).

(** The world after an operation. *)
Definition perform `{Imports} (op : Operation) (w : World) : World :=
  match op with
  | Callback actions key => (callback actions key w).2
  | GetDeletedCommentsCount reportID n =>
      (getDeletedCommentsCount reportID n w).2
  | GetLastVisibleMessageText reportID actionsToMerge =>
      (getLastVisibleMessageText reportID actionsToMerge w).2
  | GetLastVisibleReportAction reportID actionsToMerge =>
      (getLastVisibleReportAction reportID actionsToMerge w).2
  | UpdateReportActionMessage reportID n message' =>
      (updateReportActionMessage reportID n message' w).2
  | DeleteOptimisticReportAction reportID n pendingAction' =>
      (deleteOptimisticReportAction reportID n pendingAction' w).2
  end.

Definition performAll `{Imports} (ops : list Operation) (w : World) : World :=
  fold_left (fun w' op => perform op w') ops w.

(** Whether an operation is a delivery to the callback. *)
Definition isCallback (op : Operation) : bool :=
  match op with
  | Callback _ _ => true
  | _ => false
  end.

(** Whether an operation is one of the two mutations. *)
Definition isMutation (op : Operation) : bool :=
  match op with
  | UpdateReportActionMessage _ _ _ | DeleteOptimisticReportAction _ _ _ => true
  | _ => false
  end.

(** The world before anything happened. *)
Definition initialWorld : World :=
  {| heap := []; reportActionsMaxSequenceNumbers := ∅; reportActions := ∅;
     onyxRequests := [] |}.

(** ** Reading the heap: collections as values *)

(** The same object with every property value mapped. *)
Definition mapValues {A B} (f : A -> B) (object : Js.Object A) : Js.Object B :=
  (fun entry => (entry.1, f entry.2)) <$> object.

(** A collection of references read as the collection of the objects they
    point to. *)
Definition contents (h : list ReportAction) (object : Js.Object loc)
    : Js.Object ReportAction :=
  mapValues (deref h) object.

(** The actions mirrored for a report, read through the heap. *)
Definition mirrored (w : World) (reportID : string)
    : option (list ReportAction) :=
  option_map (fmap (deref (heap w))) (reportActions w !! reportID).

(** What [_.merge] computes, on values: every source property is merged into
    the destination property of the same key, or becomes that property when
    the destination has none. *)
Module Merged.

Definition assign (object : Js.Object ReportAction)
    (entry : Js.Key * ReportAction) : Js.Object ReportAction :=
  match Js.getProp object entry.1 with
  | Some objValue =>
      Js.setProp object entry.1 (mergeReportAction objValue entry.2)
  | None => Js.setProp object entry.1 entry.2
  end.

Definition base (object source : Js.Object ReportAction)
    : Js.Object ReportAction :=
  fold_left assign (Js.ownEntries source) object.

Definition merge (object : Js.Object ReportAction)
    (sources : list (Js.Object ReportAction)) : Js.Object ReportAction :=
  fold_left base sources object.

End Merged.

(** The state of a merge in progress: the heap [h0] it started from is
    still there, untouched; the module-level objects are those of [w0]; and
    the destination holds distinct objects, all created after [h0]. *)
Definition mergeState (h0 : list ReportAction) (w0 w : World)
    (object : Js.Object loc) : Prop :=
  (exists extra, heap w = h0 ++ extra)
  /\ reportActionsMaxSequenceNumbers w = reportActionsMaxSequenceNumbers w0
  /\ reportActions w = reportActions w0
  /\ onyxRequests w = onyxRequests w0
  /\ Forall (fun ref => length h0 <= ref < length (heap w))%nat object.*2
  /\ NoDup object.*2.

(** Every reference of the list points into the heap. *)
Definition allocated (h : list ReportAction) (refs : list loc) : Prop :=
  Forall (fun ref => ref < length h)%nat refs.

(** ** Vocabulary of the specification *)

(** The last element of a sequence that passes a test. *)
Definition lastWhere {A} (test : A -> bool) (l : list A) : option A :=
  last (filter (fun x => test x) l).

(** The html of the first part of an action's message; the empty string when
    the action has no message, no first part, or no html in it. *)
Definition htmlOf (action : ReportAction) : string :=
  match message action with
  | Some (part :: _) => default "" (html part)
  | _ => ""
  end.

(** The key an action is filed under: its sequence number. *)
Definition keyOfAction (action : ReportAction) : Js.Key :=
  Js.keyOf (sequenceNumber action).

(** A patch entry laid over a mirrored action: the patch overrides the
    properties it sets; alone, either one stands as it is. *)
Definition overlaid (existing patch : option ReportAction)
    : option ReportAction :=
  match existing, patch with
  | Some action, Some partial => Some (mergeReportAction action partial)
  | Some action, None => Some action
  | None, _ => patch
  end.

(** The sequence the two last-visible queries scan: the mirrored actions
    filed by sequence number, overlaid with the patch, in enumeration order. *)
Definition mergedActions (mirror : option (list ReportAction))
    (overlay : Js.Object ReportAction) : list ReportAction :=
  Underscore.toArray
    (Merged.merge [] [Underscore.indexBy mirror keyOfAction; overlay]).

(** Keys that are array indices, each at least [lo], in strictly ascending
    order. *)
Inductive ascendingFrom : Z -> list Js.Key -> Prop :=
| ascending_nil lo : ascendingFrom lo []
| ascending_cons lo n keys :
    lo <= n -> n <= 4294967294 -> ascendingFrom (n + 1) keys ->
    ascendingFrom lo (Js.KNum n :: keys).

(** A log of committed actions: every action carries a sequence number, and
    the sequence numbers strictly increase along the log. *)
Definition committedLog (log : list ReportAction) : Prop :=
  ascendingFrom 0 (keyOfAction <$> log).

(** Every array kept for a report holds references to objects of the heap. *)
Definition wellFormed (w : World) : Prop :=
  forall reportID refs,
    reportActions w !! reportID = Some refs -> allocated (heap w) refs.

(** The test the two last-visible queries scan with. *)
Definition visible `{Imports} (action : ReportAction) : bool :=
  negb (isDeletedAction action).

(** A deleted comment after a threshold, in the words of the documentation:
    an [ADDCOMMENT] action whose sequence number is strictly greater than the
    threshold and whose first message part has empty html. *)
Definition deletedCommentAbove `{Imports} (threshold : Z)
    (action : ReportAction) : bool :=
  bool_decide (actionName action = Some ADDCOMMENT)
  && match sequenceNumber action with
     | Some n => threshold <? n
     | None => false
     end
  && bool_decide (htmlOf action = "").

(** The same, except that an action without a sequence number passes the
    threshold test too. *)
Definition deletedCommentNotBelow `{Imports} (threshold : Z)
    (action : ReportAction) : bool :=
  bool_decide (actionName action = Some ADDCOMMENT)
  && match sequenceNumber action with
     | Some n => threshold <? n
     | None => true
     end
  && bool_decide (htmlOf action = "").

(** An action that is not a loading placeholder. *)
Definition nonLoading (action : ReportAction) : bool :=
  negb (Js.truthy (isLoading action)).

(** ** Concrete imports and worlds

    Values of the imported constants as the application defines them, simple
    stand-ins for the helper functions, and a few small worlds on which the
    statements below are exercised. *)

Definition demoImports : Imports :=
  {| ADDCOMMENT := "ADDCOMMENT";
     PENDING_ACTION_ADD := "add";
     COLLECTION_REPORT_ACTIONS := "reportActions_";
     extractCollectionItemID :=
       fun key => String.substring 14 (String.length key - 14) key;
     isDeletedAction := fun action => bool_decide (htmlOf action = "");
     htmlToText := fun htmlText => htmlText;
     formatReportLastMessageText := fun messageText => messageText |}.

(** A committed comment. *)
Definition comment (n : Z) (body : string) : ReportAction :=
  {| actionName := Some "ADDCOMMENT"; sequenceNumber := Some n;
     message := Some [{| html := Some body; text := Some body |}];
     pendingAction := Js.Undefined; errors := Js.Undefined; isLoading := None |}.

(** A comment deleted by emptiness that carries no sequence number. *)
Definition unnumbered : ReportAction :=
  {| actionName := Some "ADDCOMMENT"; sequenceNumber := None;
     message := Some [{| html := Some ""; text := Some "" |}];
     pendingAction := Js.Undefined; errors := Js.Undefined; isLoading := None |}.

(** A comment whose message never arrived. *)
Definition bodiless (n : Z) : ReportAction :=
  {| actionName := Some "ADDCOMMENT"; sequenceNumber := Some n;
     message := None;
     pendingAction := Js.Undefined; errors := Js.Undefined; isLoading := None |}.

(** A loading placeholder. *)
Definition placeholder (n : Z) : ReportAction :=
  {| actionName := None; sequenceNumber := Some n; message := None;
     pendingAction := Js.Undefined; errors := Js.Undefined;
     isLoading := Some true |}.

(** Report 42 of the documentation: "hi", a deleted comment, "bye". *)
Definition report42 : Js.Object ReportAction :=
  [(Js.KNum 1, comment 1 "hi"); (Js.KNum 2, comment 2 "");
   (Js.KNum 3, comment 3 "bye")].

Definition world42 : World :=
  (deliver (H := demoImports) report42 "reportActions_42" initialWorld).2.

(** A comment that is not loading and carries no sequence number. *)
Definition draft : ReportAction :=
  {| actionName := Some "ADDCOMMENT"; sequenceNumber := None;
     message := Some [{| html := Some "draft"; text := Some "draft" |}];
     pendingAction := Js.Value "add"; errors := Js.Undefined;
     isLoading := Some false |}.

(** An overlay that empties comment 3 of report 42, as a caller builds it
    before asking what would be visible after a deletion. *)
Definition overlayDelete3 : Js.Object ReportAction :=
  [(Js.KNum 3,
    {| actionName := None; sequenceNumber := None;
       message := Some [{| html := Some ""; text := Some "" |}];
       pendingAction := Js.Undefined; errors := Js.Undefined;
       isLoading := None |})].

(** A later delivery for report 42: comment 1 followed by a draft. *)
Definition report42Draft : Js.Object ReportAction :=
  [(Js.KNum 1, comment 1 "hi"); (Js.KNum 4, draft)].

(** A delivery of placeholders only. *)
Definition report42Loading : Js.Object ReportAction :=
  [(Js.KNum 5, placeholder 5); (Js.KNum 6, placeholder 6)].

(** A report whose only action has no sequence number. *)
Definition worldUnnumbered : World :=
  (deliver (H := demoImports) [(Js.KNum 1, unnumbered)] "reportActions_7"
     initialWorld).2.

(** The store applies the requests the module issued to the collection of
    report 42 and delivers the result. *)
Definition settle (collection : Js.Object ReportAction) (w : World) : World :=
  (deliver (H := demoImports)
     (fold_left (fun stored request => Onyx.applyMerge stored (mergePatch request))
        (onyxRequests w) collection)
     "reportActions_42" w).2.

(** Report 42 after the optimistic comment 3 was deleted and the store
    settled. *)
Definition world42Deleted : World :=
  settle report42
    (deleteOptimisticReportAction (H := demoImports) "42" (Js.KNum 3)
       (Js.Value "add") world42).2.

(** * Verification *)

(** ** Arrays and scans *)

Lemma at_of_nat {A} (array : list A) (i : nat) :
  Js.at_ array (Z.of_nat i) = array !! i.
Proof.
  unfold Js.at_. destruct (Z.ltb_spec (Z.of_nat i) 0) as [Hneg | _]; [lia |].
  by rewrite Nat2Z.id.
Qed.

(** The downward scan finds the last element below [n] that satisfies the
    predicate. *)
Lemma findLastIndexBelow_last {A} (array : list A) (predicate : A -> bool) n :
  (n <= length array)%nat ->
  Js.at_ array (Underscore.findLastIndexBelow array predicate n)
  = last (filter (fun x => predicate x) (take n array)).
Proof.
  induction n as [| n IH]; intros Hn; simpl.
  - done.
  - destruct (lookup_lt_is_Some_2 array n) as [x Hx]; [lia |].
    rewrite Hx, (take_S_r _ _ _ Hx), filter_app, filter_cons, filter_nil.
    destruct (predicate x) eqn:Hp.
    + rewrite decide_True by done.
      rewrite last_snoc, at_of_nat. done.
    + rewrite decide_False by (by intros []).
      rewrite app_nil_r. apply IH. lia.
Qed.

Lemma findLastIndex_last {A} (array : list A) (predicate : A -> bool) :
  Js.at_ array (Underscore.findLastIndex array predicate)
  = last (filter (fun x => predicate x) array).
Proof.
  unfold Underscore.findLastIndex.
  rewrite findLastIndexBelow_last by done. by rewrite firstn_all.
Qed.

Lemma findLastIndexBelow_fmap {A B} (f : A -> B) (array : list A)
    (predicate : B -> bool) n :
  Underscore.findLastIndexBelow (f <$> array) predicate n
  = Underscore.findLastIndexBelow array (fun x => predicate (f x)) n.
Proof.
  induction n as [| n IH]; simpl; [done |].
  rewrite list_lookup_fmap. destruct (array !! n); simpl; by rewrite IH.
Qed.

Lemma findLastIndex_fmap {A B} (f : A -> B) (array : list A)
    (predicate : B -> bool) :
  Underscore.findLastIndex (f <$> array) predicate
  = Underscore.findLastIndex array (fun x => predicate (f x)).
Proof.
  unfold Underscore.findLastIndex. by rewrite length_fmap, findLastIndexBelow_fmap.
Qed.

Lemma at_fmap {A B} (f : A -> B) (array : list A) (i : Z) :
  Js.at_ (f <$> array) i = f <$> Js.at_ array i.
Proof.
  unfold Js.at_. destruct (i <? 0); [done |]. by rewrite list_lookup_fmap.
Qed.

(** A reduction that adds one for every element passing a test counts those
    elements. *)
Lemma reduce_count {A} (iteratee : Z -> A -> Z) (test : A -> bool)
    (l : list A) (memo : Z) :
  (forall n x, iteratee n x = if test x then n + 1 else n) ->
  Underscore.reduce l iteratee memo
  = memo + Z.of_nat (length (filter (fun x => test x) l)).
Proof.
  intros Hstep. unfold Underscore.reduce. revert memo.
  induction l as [| x l IH]; intros memo; simpl; [lia |].
  rewrite IH, Hstep, filter_cons. destruct (test x) eqn:Ht.
  - rewrite decide_True by done. simpl length. lia.
  - rewrite decide_False by (by intros []). lia.
Qed.

Lemma filter_fmap_test {A B} (f : A -> B) (test : B -> bool) (l : list A) :
  filter (fun y => test y) (f <$> l) = f <$> filter (fun x => test (f x)) l.
Proof.
  induction l as [| x l IH]; [done |].
  rewrite fmap_cons, !filter_cons. destruct (test (f x)) eqn:Ht.
  - rewrite !decide_True by (by rewrite ?Ht). by rewrite fmap_cons, IH.
  - rewrite !decide_False by (rewrite ?Ht; by intros []). done.
Qed.

(** ** Objects *)

Lemma getProp_mapValues {A B} (f : A -> B) (object : Js.Object A) key :
  Js.getProp (mapValues f object) key = f <$> Js.getProp object key.
Proof.
  induction object as [| [k v] object IH]; simpl; [done |].
  destruct (decide (k = key)); [done | apply IH].
Qed.

Lemma setProp_mapValues {A B} (f : A -> B) (object : Js.Object A) key value :
  mapValues f (Js.setProp object key value)
  = Js.setProp (mapValues f object) key (f value).
Proof.
  induction object as [| [k v] object IH]; simpl; [done |].
  destruct (decide (k = key)); simpl; [done |]. by rewrite <- IH.
Qed.

Lemma setProp_fresh {A} (object : Js.Object A) key value :
  Js.getProp object key = None ->
  Js.setProp object key value = object ++ [(key, value)].
Proof.
  induction object as [| [k v] object IH]; simpl; [done |].
  destruct (decide (k = key)); [done |]. intros Hnone. by rewrite IH.
Qed.

Lemma getProp_setProp {A} (object : Js.Object A) key value key' :
  Js.getProp (Js.setProp object key value) key'
  = if decide (key = key') then Some value else Js.getProp object key'.
Proof.
  induction object as [| [k v] object IH]; simpl.
  - destruct (decide (key = key')); done.
  - destruct (decide (k = key)) as [-> | Hne]; simpl.
    + destruct (decide (key = key')); done.
    + destruct (decide (k = key')) as [-> | Hne'].
      * by rewrite decide_False.
      * apply IH.
Qed.

Lemma getProp_deleteProp {A} (object : Js.Object A) key key' :
  Js.getProp (Js.deleteProp object key) key'
  = if decide (key = key') then None else Js.getProp object key'.
Proof.
  induction object as [| [k v] object IH]; simpl.
  - destruct (decide (key = key')); done.
  - destruct (decide (k = key)) as [-> | Hne]; simpl.
    + rewrite IH. destruct (decide (key = key')); done.
    + destruct (decide (k = key')) as [-> | Hne'].
      * by rewrite decide_False.
      * apply IH.
Qed.

Lemma getProp_Some_elem {A} (object : Js.Object A) key value :
  Js.getProp object key = Some value -> (key, value) ∈ object.
Proof.
  induction object as [| [k v] object IH]; simpl; [done |].
  destruct (decide (k = key)) as [-> | Hne].
  - intros [= ->]. apply list_elem_of_here.
  - intros Hget. apply list_elem_of_further, IH, Hget.
Qed.

Lemma insertIndexed_mapValues {A B} (f : A -> B) i (entry : Js.Key * A) run :
  Js.insertIndexed i (entry.1, f entry.2)
    ((fun ie => (ie.1, (ie.2.1, f ie.2.2))) <$> run)
  = (fun ie => (ie.1, (ie.2.1, f ie.2.2))) <$> Js.insertIndexed i entry run.
Proof.
  induction run as [| [j e] run IH]; simpl; [done |].
  destruct (i <? j); simpl; [done |]. f_equal. apply IH.
Qed.

Lemma indexedEntries_mapValues {A B} (f : A -> B) (object : Js.Object A) :
  Js.indexedEntries (mapValues f object)
  = (fun ie => (ie.1, (ie.2.1, f ie.2.2))) <$> Js.indexedEntries object.
Proof.
  induction object as [| [k v] object IH]; simpl; [done |].
  fold (Js.indexedEntries object). fold (mapValues f object).
  fold (Js.indexedEntries (mapValues f object)). rewrite IH.
  destruct (Js.arrayIndex k); [| done].
  apply (insertIndexed_mapValues f _ (k, v)).
Qed.

Lemma namedEntries_mapValues {A B} (f : A -> B) (object : Js.Object A) :
  Js.namedEntries (mapValues f object) = mapValues f (Js.namedEntries object).
Proof.
  unfold Js.namedEntries, mapValues.
  induction object as [| [k v] object IH]; [done |].
  rewrite fmap_cons. simpl fst.
  destruct (Js.arrayIndex k) eqn:Hk.
  - rewrite !filter_cons_False by (simpl; by rewrite Hk). apply IH.
  - rewrite !filter_cons_True by (simpl; by rewrite Hk).
    rewrite fmap_cons. f_equal. apply IH.
Qed.

Lemma ownEntries_mapValues {A B} (f : A -> B) (object : Js.Object A) :
  Js.ownEntries (mapValues f object) = mapValues f (Js.ownEntries object).
Proof.
  unfold Js.ownEntries.
  rewrite indexedEntries_mapValues, namedEntries_mapValues.
  unfold mapValues. rewrite fmap_app, <- !list_fmap_compose. done.
Qed.

Lemma toArray_mapValues {A B} (f : A -> B) (object : Js.Object A) :
  Underscore.toArray (mapValues f object) = f <$> Underscore.toArray object.
Proof.
  unfold Underscore.toArray. rewrite ownEntries_mapValues.
  unfold mapValues. by rewrite <- !list_fmap_compose.
Qed.

Lemma insertIndexed_elem {A} i (entry : Js.Key * A) run ie :
  ie ∈ Js.insertIndexed i entry run -> ie = (i, entry) \/ ie ∈ run.
Proof.
  induction run as [| [j e] run IH]; simpl.
  - rewrite list_elem_of_singleton. by left.
  - destruct (i <? j).
    + rewrite elem_of_cons. intros [-> | Hin]; [by left | by right].
    + rewrite !elem_of_cons. intros [-> | Hin]; [right; by left |].
      destruct (IH Hin) as [-> | Hrun]; [by left | right; by right].
Qed.

Lemma indexedEntries_elem {A} (object : Js.Object A) ie :
  ie ∈ Js.indexedEntries object -> ie.2 ∈ object.
Proof.
  induction object as [| [k v] object IH]; simpl.
  - by rewrite elem_of_nil.
  - fold (Js.indexedEntries object). destruct (Js.arrayIndex k).
    + intros Hin. apply insertIndexed_elem in Hin as [-> | Hin].
      * apply list_elem_of_here.
      * apply list_elem_of_further, IH, Hin.
    + intros Hin. apply list_elem_of_further, IH, Hin.
Qed.

(** Enumeration lists properties of the object only. *)
Lemma ownEntries_elem {A} (object : Js.Object A) entry :
  entry ∈ Js.ownEntries object -> entry ∈ object.
Proof.
  unfold Js.ownEntries, Js.namedEntries. rewrite elem_of_app.
  intros [Hin | Hin].
  - apply list_elem_of_fmap in Hin as [ie [-> Hie]].
    by apply indexedEntries_elem.
  - by apply list_elem_of_filter in Hin as [_ Hin].
Qed.

Lemma indexBy_mapValues {A B} (f : A -> B) (refs : option (list A))
    (iteratee : B -> Js.Key) :
  mapValues f (Underscore.indexBy refs (fun x => iteratee (f x)))
  = Underscore.indexBy (option_map (fmap f) refs) iteratee.
Proof.
  unfold Underscore.indexBy.
  assert (Hgen : forall (l : list A) (acc : Js.Object A),
    mapValues f
      (fold_left (fun result value => Js.setProp result (iteratee (f value)) value)
         l acc)
    = fold_left (fun result value => Js.setProp result (iteratee value) value)
        (f <$> l) (mapValues f acc)).
  { induction l as [| x l IH]; intros acc; simpl; [done |].
    by rewrite IH, setProp_mapValues. }
  destruct refs as [l |]; simpl; [apply Hgen | done].
Qed.

(** ** [_.merge] on the heap computes the merge of the values *)

Lemma deref_app_l h extra ref :
  (ref < length h)%nat -> deref (h ++ extra) ref = deref h ref.
Proof. intros Hlt. unfold deref. by rewrite lookup_app_l. Qed.

Lemma contents_app_l h extra (object : Js.Object loc) :
  allocated h object.*2 -> contents (h ++ extra) object = contents h object.
Proof.
  unfold allocated, contents, mapValues.
  induction object as [| [k r] object IH]; [done |].
  rewrite fmap_cons. inversion_clear 1 as [| ? ? Hr Hrest].
  rewrite !fmap_cons. simpl in *. rewrite deref_app_l by done.
  f_equal. by apply IH.
Qed.

Lemma contents_store_other h r v (object : Js.Object loc) :
  r ∉ object.*2 -> contents (<[r := v]> h) object = contents h object.
Proof.
  unfold contents, mapValues.
  induction object as [| [k r'] object IH]; [done |].
  rewrite !fmap_cons. simpl. rewrite not_elem_of_cons. intros [Hne Hnotin].
  unfold deref at 1 3. rewrite list_lookup_insert_ne by done.
  f_equal. by apply IH.
Qed.

(** Writing to the object filed under [key] changes that property of the
    collection read as values, and no other. *)
Lemma contents_store h r v (object : Js.Object loc) key :
  Js.getProp object key = Some r -> NoDup object.*2 -> (r < length h)%nat ->
  contents (<[r := v]> h) object = Js.setProp (contents h object) key v.
Proof.
  intros Hget Hnodup Hlt. revert Hget Hnodup.
  induction object as [| [k r'] object IH]; simpl; [done |].
  intros Hget Hnodup. apply NoDup_cons in Hnodup as [Hnotin Hnodup].
  destruct (decide (k = key)) as [-> | Hne].
  - injection Hget as ->.
    change (contents (<[r:=v]> h) ((key, r) :: object))
      with ((key, deref (<[r:=v]> h) r) :: contents (<[r:=v]> h) object).
    rewrite contents_store_other by done.
    unfold deref at 1. rewrite list_lookup_insert_eq by done. done.
  - assert (r' <> r) as Hrr.
    { intros ->. apply Hnotin. apply getProp_Some_elem in Hget.
      apply list_elem_of_fmap. by exists (key, r). }
    change (contents (<[r:=v]> h) ((k, r') :: object))
      with ((k, deref (<[r:=v]> h) r') :: contents (<[r:=v]> h) object).
    unfold deref at 1. rewrite list_lookup_insert_ne by done.
    rewrite IH by done. done.
Qed.

Lemma mergeState_heap h0 w0 w object ref :
  mergeState h0 w0 w object -> (ref < length h0)%nat ->
  deref (heap w) ref = deref h0 ref.
Proof.
  intros ([extra Hheap] & _) Href. rewrite Hheap. by apply deref_app_l.
Qed.

(** One step of the merge: the destination read as values changes as the
    merge of values prescribes, and nothing that existed before the merge
    began is written to. *)
Lemma assignMergeValue_refines h0 w0 w object entry :
  mergeState h0 w0 w object ->
  exists object' w',
    LodashMerge.assignMergeValue object entry w = (object', w')
    /\ mergeState h0 w0 w' object'
    /\ contents (heap w') object'
       = Merged.assign (contents (heap w) object)
           (entry.1, deref (heap w) entry.2).
Proof.
  intros (Hext & Hmax & Hmirror & Honyx & Hrefs & Hnodup).
  destruct Hext as [extra Hheap].
  destruct entry as [key src].
  unfold LodashMerge.assignMergeValue, Merged.assign, bind, heapNow. simpl.
  unfold contents at 2. rewrite getProp_mapValues. fold (contents (heap w) object).
  destruct (Js.getProp object key) as [objRef |] eqn:Hget; simpl.
  - assert (length h0 <= objRef < length (heap w))%nat as Hobj.
    { eapply (proj1 (Forall_forall _ _) Hrefs).
      apply getProp_Some_elem in Hget. apply list_elem_of_fmap.
      by exists (key, objRef). }
    eexists _, _. split; [reflexivity |]. simpl. split.
    + repeat split; simpl; try done.
      * exists (<[(objRef - length h0)%nat := mergeReportAction
                   (deref (heap w) objRef) (deref (heap w) src)]> extra).
        rewrite Hheap. rewrite insert_app_r_alt by lia. done.
      * rewrite length_insert. done.
    + apply contents_store; [done | done | lia].
  - eexists _, _. split; [reflexivity |]. simpl. split.
    + repeat split; simpl; try done.
      * exists (extra ++ [deref (heap w) src]). rewrite Hheap. by rewrite app_assoc.
      * rewrite (setProp_fresh _ _ _ Hget), fmap_app, Forall_app. split.
        -- eapply Forall_impl; [exact Hrefs |]. simpl. intros ref Hr.
           rewrite length_app. simpl. lia.
        -- apply Forall_singleton. simpl. rewrite length_app, Hheap, length_app.
           simpl. lia.
      * rewrite (setProp_fresh _ _ _ Hget), fmap_app. apply NoDup_app.
        split; [done |]. split; [| apply NoDup_singleton].
        intros ref Hin. simpl. rewrite list_elem_of_singleton. intros ->.
        pose proof (proj1 (Forall_forall _ _) Hrefs _ Hin) as Hr. simpl in Hr. lia.
    + rewrite (setProp_fresh _ _ _ Hget).
      rewrite setProp_fresh by (unfold contents; by rewrite getProp_mapValues, Hget).
      unfold contents, mapValues. rewrite fmap_app. simpl.
      fold (mapValues (deref (heap w ++ [deref (heap w) src])) object).
      fold (contents (heap w ++ [deref (heap w) src]) object).
      rewrite contents_app_l.
      * unfold deref at 1. rewrite lookup_app_r by lia.
        rewrite Nat.sub_diag. simpl. done.
      * eapply Forall_impl; [exact Hrefs |]. simpl. intros ref Hr. lia.
Qed.

Lemma ownEntries_allocated h (source : Js.Object loc) :
  allocated h source.*2 -> allocated h (Js.ownEntries source).*2.
Proof.
  unfold allocated. rewrite !Forall_forall. intros Hall ref Hin.
  apply list_elem_of_fmap in Hin as [entry [-> Hentry]].
  apply Hall, list_elem_of_fmap. exists entry. split; [done |].
  by apply ownEntries_elem.
Qed.

Lemma foldM_assign_refines h0 w0 entries :
  forall w object,
    mergeState h0 w0 w object ->
    exists object' w',
      foldM LodashMerge.assignMergeValue entries object w = (object', w')
      /\ mergeState h0 w0 w' object'
      /\ (allocated h0 entries.*2 ->
          contents (heap w') object'
          = fold_left Merged.assign (contents h0 entries)
              (contents (heap w) object)).
Proof.
  induction entries as [| entry entries IH]; intros w object Hstate.
  - exists object, w. split; [done | split; done].
  - destruct (assignMergeValue_refines h0 w0 w object entry Hstate)
      as (object1 & w1 & Hstep & Hstate1 & Hcontents1).
    destruct (IH w1 object1 Hstate1)
      as (object' & w' & Hfold & Hstate' & Hcontents').
    exists object', w'. split; [| split; [done |]].
    + simpl. unfold bind. by rewrite Hstep.
    + rewrite fmap_cons. intros [Hentry Hrest]%Forall_cons.
      rewrite Hcontents' by done. simpl. rewrite Hcontents1.
      by rewrite (mergeState_heap h0 w0 w object).
Qed.

Lemma baseMerge_refines h0 w0 w object source :
  mergeState h0 w0 w object ->
  exists object' w',
    LodashMerge.baseMerge object source w = (object', w')
    /\ mergeState h0 w0 w' object'
    /\ (allocated h0 source.*2 ->
        contents (heap w') object'
        = Merged.base (contents (heap w) object) (contents h0 source)).
Proof.
  intros Hstate.
  destruct (foldM_assign_refines h0 w0 (Js.ownEntries source) w object Hstate)
    as (object' & w' & Hfold & Hstate' & Hcontents).
  exists object', w'. split; [done | split; [done |]].
  intros Halloc. rewrite Hcontents by (by apply ownEntries_allocated).
  unfold Merged.base, contents. by rewrite ownEntries_mapValues.
Qed.

Lemma merge_refines h0 w0 sources :
  forall w object,
    mergeState h0 w0 w object ->
    exists object' w',
      LodashMerge.merge object sources w = (object', w')
      /\ mergeState h0 w0 w' object'
      /\ (Forall (fun source : Js.Object loc => allocated h0 source.*2) sources ->
          contents (heap w') object'
          = Merged.merge (contents (heap w) object) (contents h0 <$> sources)).
Proof.
  induction sources as [| source sources IH]; intros w object Hstate.
  - exists object, w. split; [done | split; done].
  - destruct (baseMerge_refines h0 w0 w object source Hstate)
      as (object1 & w1 & Hstep & Hstate1 & Hcontents1).
    destruct (IH w1 object1 Hstate1)
      as (object' & w' & Hfold & Hstate' & Hcontents').
    exists object', w'. split; [| split; [done |]].
    + unfold LodashMerge.merge in *. simpl. unfold bind. by rewrite Hstep.
    + intros [Hsource Hrest]%Forall_cons.
      rewrite Hcontents' by done. rewrite fmap_cons. simpl.
      by rewrite Hcontents1.
Qed.

(** Merging into a new, empty destination: everything that was on the heap
    stays as it was, whatever the sources are; and when the sources hold
    objects of the heap, the destination reads as the merge of the values. *)
Lemma merge_into_fresh w sources :
  exists merged w',
    LodashMerge.merge [] sources w = (merged, w')
    /\ mergeState (heap w) w w' merged
    /\ (Forall (fun source : Js.Object loc => allocated (heap w) source.*2)
          sources ->
        contents (heap w') merged
        = Merged.merge [] (contents (heap w) <$> sources)).
Proof.
  apply (merge_refines (heap w) w sources w []).
  repeat split; try done.
  - exists []. by rewrite app_nil_r.
  - apply NoDup_nil_2.
Qed.

(** ** What the merged collection holds *)

Lemma insertIndexed_Permutation {A} i (entry : Js.Key * A) run :
  Js.insertIndexed i entry run ≡ₚ (i, entry) :: run.
Proof.
  induction run as [| [j e] run IH]; simpl; [done |].
  destruct (i <? j); [done |]. rewrite IH. apply Permutation_swap.
Qed.

Lemma indexedEntries_Permutation {A} (object : Js.Object A) :
  (Js.indexedEntries object).*2
  ≡ₚ filter (fun entry => Js.arrayIndex entry.1 <> None) object.
Proof.
  induction object as [| [k v] object IH]; simpl; [done |].
  fold (Js.indexedEntries object).
  destruct (Js.arrayIndex k) eqn:Hk.
  - rewrite insertIndexed_Permutation, fmap_cons. simpl.
    rewrite filter_cons_True by (simpl; by rewrite Hk). by rewrite IH.
  - rewrite filter_cons_False by (simpl; rewrite Hk; by intros Hnot). done.
Qed.

(** Enumeration lists every property once. *)
Lemma ownEntries_Permutation {A} (object : Js.Object A) :
  Js.ownEntries object ≡ₚ object.
Proof.
  unfold Js.ownEntries, Js.namedEntries.
  rewrite indexedEntries_Permutation.
  induction object as [| [k v] object IH]; [done |].
  destruct (Js.arrayIndex k) eqn:Hk.
  - rewrite filter_cons_True by (simpl; by rewrite Hk).
    rewrite filter_cons_False by (simpl; by rewrite Hk).
    simpl. by rewrite IH.
  - rewrite filter_cons_False by (simpl; rewrite Hk; by intros Hnot).
    rewrite filter_cons_True by (simpl; by rewrite Hk).
    rewrite <- Permutation_middle. by rewrite IH.
Qed.

Lemma getProp_None {A} (object : Js.Object A) key :
  Js.getProp object key = None <-> key ∉ object.*1.
Proof.
  induction object as [| [k v] object IH]; simpl.
  - split; [intros _; apply not_elem_of_nil | done].
  - rewrite not_elem_of_cons. destruct (decide (k = key)) as [-> | Hne].
    + split; [done | by intros [Hne _]].
    + rewrite IH. split; [by intros Hnotin | by intros [_ Hnotin]].
Qed.

Lemma getProp_elem {A} (object : Js.Object A) key value :
  NoDup object.*1 ->
  Js.getProp object key = Some value <-> (key, value) ∈ object.
Proof.
  intros Hnodup. split; [apply getProp_Some_elem |].
  induction object as [| [k v] object IH]; simpl.
  - by rewrite elem_of_nil.
  - rewrite fmap_cons in Hnodup. apply NoDup_cons in Hnodup as [Hnotin Hnodup].
    rewrite elem_of_cons. destruct (decide (k = key)) as [-> | Hne].
    + intros [[= <-] | Hin]; [done |]. exfalso. apply Hnotin.
      apply list_elem_of_fmap. by exists (key, value).
    + intros [Heq | Hin]; [congruence | by apply IH].
Qed.

(** With distinct keys, reading a property does not depend on the order in
    which the properties are listed. *)
Lemma getProp_Permutation {A} (o1 o2 : Js.Object A) key :
  NoDup o1.*1 -> o1 ≡ₚ o2 -> Js.getProp o1 key = Js.getProp o2 key.
Proof.
  intros Hnodup Hperm.
  assert (NoDup o2.*1) as Hnodup2 by (by rewrite <- Hperm).
  destruct (Js.getProp o1 key) as [v |] eqn:H1.
  - symmetry. apply getProp_elem; [done |]. rewrite <- Hperm.
    by apply getProp_elem.
  - symmetry. apply getProp_None. rewrite <- Hperm. by apply getProp_None.
Qed.

Lemma fold_assign_lookup entries :
  forall object key,
    NoDup entries.*1 ->
    Js.getProp (fold_left Merged.assign entries object) key
    = overlaid (Js.getProp object key) (Js.getProp entries key).
Proof.
  induction entries as [| [k p] entries IH]; intros object key Hnodup; simpl.
  - by destruct (Js.getProp object key).
  - rewrite fmap_cons in Hnodup. apply NoDup_cons in Hnodup as [Hnotin Hnodup].
    rewrite IH by done. unfold Merged.assign. simpl.
    destruct (decide (k = key)) as [-> | Hne].
    + rewrite (proj2 (getProp_None entries key) Hnotin).
      destruct (Js.getProp object key) as [a |]; rewrite getProp_setProp;
        rewrite decide_True by done; done.
    + destruct (Js.getProp object k) as [a |]; rewrite getProp_setProp;
        rewrite decide_False by done; done.
Qed.

(** A property of the merged destination is the destination's property
    overlaid with the source's. *)
Lemma base_lookup object source key :
  NoDup source.*1 ->
  Js.getProp (Merged.base object source) key
  = overlaid (Js.getProp object key) (Js.getProp source key).
Proof.
  intros Hnodup. unfold Merged.base.
  assert (NoDup (Js.ownEntries source).*1) as Hown
    by (by rewrite ownEntries_Permutation).
  rewrite fold_assign_lookup by done.
  by rewrite (getProp_Permutation _ source key Hown (ownEntries_Permutation _)).
Qed.

Lemma setProp_keys_elem {A} (object : Js.Object A) key value k :
  k ∈ (Js.setProp object key value).*1 -> k = key \/ k ∈ object.*1.
Proof.
  induction object as [| [k' v'] object IH]; simpl.
  - rewrite list_elem_of_singleton. by left.
  - destruct (decide (k' = key)) as [-> | Hne]; simpl.
    + rewrite !elem_of_cons. intros [-> | Hin]; [by left | right; by right].
    + rewrite !elem_of_cons. intros [-> | Hin]; [right; by left |].
      destruct (IH Hin) as [-> | Hin']; [by left | right; by right].
Qed.

Lemma setProp_keys_NoDup {A} (object : Js.Object A) key value :
  NoDup object.*1 -> NoDup (Js.setProp object key value).*1.
Proof.
  induction object as [| [k v] object IH]; simpl.
  - intros _. apply NoDup_singleton.
  - rewrite NoDup_cons. intros [Hnotin Hnodup].
    destruct (decide (k = key)) as [-> | Hne]; simpl.
    + by apply NoDup_cons.
    + apply NoDup_cons. split; [| by apply IH].
      intros Hin. apply setProp_keys_elem in Hin as [-> | Hin]; done.
Qed.

Lemma indexBy_fold_NoDup {A} (iteratee : A -> Js.Key) (l : list A) :
  forall acc : Js.Object A,
    NoDup acc.*1 ->
    NoDup (fold_left (fun result value => Js.setProp result (iteratee value) value)
             l acc).*1.
Proof.
  induction l as [| x l IH]; intros acc Hacc; simpl; [done |].
  by apply IH, setProp_keys_NoDup.
Qed.

Lemma indexBy_NoDup {A} (l : option (list A)) (iteratee : A -> Js.Key) :
  NoDup (Underscore.indexBy l iteratee).*1.
Proof. apply indexBy_fold_NoDup, NoDup_nil_2. Qed.

Lemma indexBy_fold_lookup {A} (iteratee : A -> Js.Key) (l : list A) key :
  forall acc : Js.Object A,
    Js.getProp
      (fold_left (fun result value => Js.setProp result (iteratee value) value)
         l acc) key
    = match lastWhere (fun x => bool_decide (iteratee x = key)) l with
      | Some x => Some x
      | None => Js.getProp acc key
      end.
Proof.
  unfold lastWhere.
  induction l as [| x l IH] using rev_ind; intros acc; [done |].
  rewrite fold_left_app, filter_app. simpl. rewrite getProp_setProp.
  rewrite filter_cons, filter_nil.
  destruct (decide (iteratee x = key)) as [Heq | Hne].
  - rewrite decide_True by (by apply bool_decide_pack).
    by rewrite last_snoc.
  - rewrite decide_False by (by intros ?%bool_decide_unpack).
    rewrite app_nil_r. apply IH.
Qed.

(** [_.indexBy] files under a key the last element that carries it. *)
Lemma indexBy_lookup {A} (l : option (list A)) (iteratee : A -> Js.Key) key :
  Js.getProp (Underscore.indexBy l iteratee) key
  = lastWhere (fun x => bool_decide (iteratee x = key)) (default [] l).
Proof.
  unfold Underscore.indexBy. rewrite indexBy_fold_lookup.
  by destruct (lastWhere _ _).
Qed.

(** ** The last-visible queries *)

Lemma lastWhere_at {A} (test : A -> bool) (array : list A) :
  Js.at_ array (Underscore.findLastIndex array test) = lastWhere test array.
Proof. apply findLastIndex_last. Qed.

Lemma lastWhere_fmap {A B} (f : A -> B) (test : B -> bool) (l : list A) :
  lastWhere test (f <$> l) = f <$> lastWhere (fun x => test (f x)) l.
Proof.
  rewrite <- !lastWhere_at. by rewrite findLastIndex_fmap, at_fmap.
Qed.

Lemma setProp_values_Forall {A} (P : A -> Prop) (object : Js.Object A) key value :
  Forall P object.*2 -> P value -> Forall P (Js.setProp object key value).*2.
Proof.
  induction object as [| [k v] object IH]; simpl.
  - intros _ Hv. by apply Forall_singleton.
  - rewrite Forall_cons. intros [Hv Hrest] Hvalue.
    destruct (decide (k = key)); simpl; apply Forall_cons; split; auto.
Qed.

Lemma indexBy_allocated h (refs : option (list loc)) (iteratee : loc -> Js.Key) :
  allocated h (default [] refs) ->
  allocated h (Underscore.indexBy refs iteratee).*2.
Proof.
  unfold Underscore.indexBy, allocated.
  assert (Hgen : forall (l : list loc) (acc : Js.Object loc),
    Forall (fun ref => ref < length h)%nat acc.*2 ->
    Forall (fun ref => ref < length h)%nat l ->
    Forall (fun ref => ref < length h)%nat
      (fold_left (fun result value => Js.setProp result (iteratee value) value)
         l acc).*2).
  { induction l as [| x l IH]; intros acc Hacc Hl; simpl; [done |].
    apply Forall_cons in Hl as [Hx Hl].
    apply IH; [| done]. by apply setProp_values_Forall. }
  intros Hrefs. by apply Hgen.
Qed.

(** The merge step the two queries share: it leaves the heap it found in
    place and builds, in new objects, the overlaid sequence. *)
Lemma query_merge (w : World) (reportID : string) (overlay : Js.Object loc) :
  exists merged w',
    LodashMerge.merge []
      [Underscore.indexBy (reportActions w !! reportID)
         (fun action => Js.keyOf (sequenceNumber (deref (heap w) action)));
       overlay] w = (merged, w')
    /\ mergeState (heap w) w w' merged
    /\ (allocated (heap w) (default [] (reportActions w !! reportID)) ->
        allocated (heap w) overlay.*2 ->
        deref (heap w') <$> Underscore.toArray merged
        = mergedActions (mirrored w reportID) (contents (heap w) overlay)).
Proof.
  destruct (merge_into_fresh w
              [Underscore.indexBy (reportActions w !! reportID)
                 (fun action => Js.keyOf (sequenceNumber (deref (heap w) action)));
               overlay])
    as (merged & w' & Hrun & Hstate & Hcontents).
  exists merged, w'. split; [done | split; [done |]].
  intros Hmirror Hoverlay.
  unfold mergedActions, mirrored.
  rewrite <- (indexBy_mapValues (deref (heap w)) _ keyOfAction).
  rewrite <- toArray_mapValues. fold (contents (heap w') merged).
  rewrite Hcontents; [done |].
  repeat apply Forall_cons_2; [by apply indexBy_allocated | done | done].
Qed.

Section Queries.

Context `{Imports}.

(** Whatever they are given, the two queries leave every object that
    existed before in place and write to no module-level object. *)
Lemma getLastVisibleMessageText_state (w : World) (reportID : string)
    (actionsToMerge : option (Js.Object loc)) :
  exists merged,
    mergeState (heap w) w
      (getLastVisibleMessageText reportID actionsToMerge w).2 merged.
Proof.
  destruct (query_merge w reportID (default [] actionsToMerge))
    as (merged & w' & Hrun & Hstate & _).
  unfold getLastVisibleMessageText, bind, readReportActions, heapNow, ret.
  rewrite Hrun. by exists merged.
Qed.

Lemma getLastVisibleReportAction_state (w : World) (reportID : string)
    (actionsToMerge : option (Js.Object loc)) :
  exists merged,
    mergeState (heap w) w
      (getLastVisibleReportAction reportID actionsToMerge w).2 merged.
Proof.
  destruct (query_merge w reportID (default [] actionsToMerge))
    as (merged & w' & Hrun & Hstate & _).
  unfold getLastVisibleReportAction, bind, readReportActions, heapNow, ret.
  rewrite Hrun. by exists merged.
Qed.

(** On objects of the heap, [getLastVisibleReportAction] returns the last
    visible action of the overlaid sequence. *)
Lemma getLastVisibleReportAction_run (w : World) (reportID : string)
    (actionsToMerge : option (Js.Object loc)) :
  allocated (heap w) (default [] (reportActions w !! reportID)) ->
  allocated (heap w) (default [] actionsToMerge).*2 ->
  let found := getLastVisibleReportAction reportID actionsToMerge w in
  deref (heap found.2) <$> found.1
  = lastWhere visible
      (mergedActions (mirrored w reportID)
         (contents (heap w) (default [] actionsToMerge))).
Proof.
  intros Hmirror Hoverlay.
  destruct (query_merge w reportID (default [] actionsToMerge))
    as (merged & w' & Hrun & Hstate & Hactions).
  unfold getLastVisibleReportAction, bind, readReportActions, heapNow, ret.
  rewrite Hrun. simpl.
  rewrite lastWhere_at, <- Hactions, lastWhere_fmap by done. done.
Qed.

(** On objects of the heap, [getLastVisibleMessageText] returns the
    formatted text of the html of that action. *)
Lemma getLastVisibleMessageText_run (w : World) (reportID : string)
    (actionsToMerge : option (Js.Object loc)) :
  allocated (heap w) (default [] (reportActions w !! reportID)) ->
  allocated (heap w) (default [] actionsToMerge).*2 ->
  (getLastVisibleMessageText reportID actionsToMerge w).1
  = formatReportLastMessageText
      (htmlToText
         (match lastWhere visible
                  (mergedActions (mirrored w reportID)
                     (contents (heap w) (default [] actionsToMerge)))
          with
          | Some action => htmlOf action
          | None => ""
          end)).
Proof.
  intros Hmirror Hoverlay.
  destruct (query_merge w reportID (default [] actionsToMerge))
    as (merged & w' & Hrun & Hstate & Hactions).
  unfold getLastVisibleMessageText, bind, readReportActions, heapNow, ret.
  rewrite Hrun. simpl.
  rewrite lastWhere_at, <- Hactions, lastWhere_fmap by done.
  do 2 f_equal. unfold visible.
  destruct (lastWhere _ (Underscore.toArray merged)) as [ref |]; simpl; [| done].
  unfold htmlOf.
  by destruct (message (deref (heap w') ref)) as [[| part parts] |].
Qed.

End Queries.

(** ** Counting deleted comments *)

Section DeletedComments.

Context `{Imports}.

(** The reducer of [getDeletedCommentsCount] adds one exactly for the
    actions that pass [deletedCommentNotBelow]. *)
Lemma getDeletedCommentsCount_run (w : World) (reportID : string)
    (threshold : Z) :
  getDeletedCommentsCount reportID threshold w
  = (Z.of_nat
       (length (filter (fun action => deletedCommentNotBelow threshold action)
                  (default [] (mirrored w reportID)))), w).
Proof.
  unfold getDeletedCommentsCount, mirrored, bind, readReportActions, heapNow, ret.
  destruct (reportActions w !! reportID) as [refs |]; simpl; [| done].
  f_equal.
  rewrite (reduce_count _
             (fun ref => deletedCommentNotBelow threshold (deref (heap w) ref))).
  - by rewrite Z.add_0_l, filter_fmap_test, length_fmap.
  - intros n ref. unfold deletedCommentNotBelow, htmlOf, Js.le.
    destruct (deref (heap w) ref) as [name seq msg pending errs loading].
    simpl.
    destruct (decide (name = Some ADDCOMMENT)) as [-> | Hname].
    + rewrite bool_decide_false by (by intros Hne).
      rewrite bool_decide_true by done. simpl.
      destruct seq as [m |]; simpl.
      * destruct (Z.leb_spec m threshold), (Z.ltb_spec threshold m);
          try lia; simpl; [done |].
        by destruct msg as [[| [h t] parts] |]; simpl; try destruct h.
      * by destruct msg as [[| [h t] parts] |]; simpl; try destruct h.
    + rewrite bool_decide_true by done. by rewrite bool_decide_false.
Qed.

End DeletedComments.

(** C1, as stated, fails on an action that carries no sequence number: the
    comparison [undefined <= 0] is false, so the action is not skipped and is
    counted, although its sequence number is not greater than the threshold. *)
Lemma getDeletedCommentsCount_counts_unnumbered :
  (getDeletedCommentsCount (H := demoImports) "7" 0 worldUnnumbered).1
  <> Z.of_nat
       (length
          (filter (fun action => deletedCommentAbove (H := demoImports) 0 action)
             (default [] (mirrored worldUnnumbered "7")))).
Proof. vm_compute. discriminate. Qed.

(** C1 (amended): [getDeletedCommentsCount] returns the number of mirrored
    actions of the report that are [ADDCOMMENT] actions, whose sequence number
    is not at or below the threshold (strictly greater, or absent), and whose
    first message part has empty html (a missing message, part or html counts
    as empty); it leaves the world as it is.  The result is 0 when the report
    has no mirrored actions, and when every mirrored action carries a sequence
    number at or below the threshold. *)
Theorem getDeletedCommentsCount_spec `{Imports} (w : World)
    (reportID : string) (threshold : Z) :
  getDeletedCommentsCount reportID threshold w
  = (Z.of_nat
       (length (filter (fun action => deletedCommentNotBelow threshold action)
                  (default [] (mirrored w reportID)))), w)
  /\ (mirrored w reportID = None ->
      (getDeletedCommentsCount reportID threshold w).1 = 0)
  /\ (Forall (fun action =>
                exists n, sequenceNumber action = Some n /\ n <= threshold)
        (default [] (mirrored w reportID)) ->
      (getDeletedCommentsCount reportID threshold w).1 = 0).
Proof.
  rewrite getDeletedCommentsCount_run. split; [done |]. split.
  - intros ->. done.
  - intros Hall. simpl. induction Hall as [| action l (n & Hn & Hle) _ IH]; [done |].
    rewrite filter_cons_False; [done |].
    unfold deletedCommentNotBelow. rewrite Hn.
    destruct (Z.ltb_spec threshold n); [lia |].
    rewrite andb_false_r. by intros [].
Qed.

Lemma getDeletedCommentsCount_spec_witness :
  getDeletedCommentsCount (H := demoImports) "42" 0 world42 = (1, world42)
  /\ mirrored world42 "1" = None
  /\ (getDeletedCommentsCount (H := demoImports) "1" 0 world42).1 = 0
  /\ (getDeletedCommentsCount (H := demoImports) "42" 3 world42).1 = 0.
Proof.
  pose proof (getDeletedCommentsCount_spec (H := demoImports) world42 "42" 0)
    as (Hcount & _ & _).
  pose proof (getDeletedCommentsCount_spec (H := demoImports) world42 "1" 0)
    as (_ & Hnone & _).
  pose proof (getDeletedCommentsCount_spec (H := demoImports) world42 "42" 3)
    as (_ & _ & Hbelow).
  split; [exact Hcount |]. split; [reflexivity |].
  split; [apply Hnone; reflexivity |].
  apply Hbelow.
  assert (default [] (mirrored world42 "42")
          = [comment 1 "hi"; comment 2 ""; comment 3 "bye"]) as ->
    by (vm_compute; reflexivity).
  repeat (apply Forall_cons_2; [eexists; split; [reflexivity | lia] |]).
  apply Forall_nil_2.
Defined.

(** C9: an [ADDCOMMENT] action above the threshold whose message is absent,
    or whose first message part has no html, is counted as deleted: the count
    with the action in the log is one more than the count without it. *)
Theorem absent_html_is_counted `{Imports} (w : World) (reportID : string)
    (threshold n : Z) (before after : list loc) (ref : loc) :
  reportActions w !! reportID = Some (before ++ ref :: after) ->
  actionName (deref (heap w) ref) = Some ADDCOMMENT ->
  sequenceNumber (deref (heap w) ref) = Some n ->
  threshold < n ->
  (message (deref (heap w) ref) = None
   \/ exists part parts,
        message (deref (heap w) ref) = Some (part :: parts)
        /\ html part = None) ->
  (getDeletedCommentsCount reportID threshold w).1
  = (getDeletedCommentsCount reportID threshold
       (writeReportActions reportID (before ++ after) w).2).1 + 1.
Proof.
  intros Hlog Hname Hseq Habove Hhtml.
  rewrite !getDeletedCommentsCount_run. unfold mirrored. simpl.
  rewrite Hlog, lookup_insert_eq. simpl.
  rewrite !fmap_app, fmap_cons, !filter_app, filter_cons_True.
  - rewrite !length_app. simpl. lia.
  - unfold deletedCommentNotBelow, htmlOf. rewrite Hname, Hseq.
    rewrite bool_decide_true by done.
    destruct (Z.ltb_spec threshold n); [| lia]. simpl.
    destruct Hhtml as [-> | (part & parts & -> & ->)]; done.
Qed.

Lemma absent_html_is_counted_witness :
  (getDeletedCommentsCount (H := demoImports) "9" 4
     (deliver (H := demoImports)
        [(Js.KNum 4, comment 4 "kept"); (Js.KNum 5, bodiless 5)]
        "reportActions_9" initialWorld).2).1
  = 0 + 1.
Proof.
  apply (absent_html_is_counted (H := demoImports)
           (deliver (H := demoImports)
              [(Js.KNum 4, comment 4 "kept"); (Js.KNum 5, bodiless 5)]
              "reportActions_9" initialWorld).2
           "9" 4 5 [0%nat] [] 1%nat).
  - reflexivity.
  - reflexivity.
  - reflexivity.
  - lia.
  - left. reflexivity.
Defined.

(** ** The subscription callback and the sequence index *)

Section Callback.

Context `{Imports}.

(** The index after a delivery: the entry of the report is set to the
    sequence number of the last action that is not loading, when there is
    such an action and it has a sequence number; otherwise the index is as
    before. *)
Lemma callback_index (w : World) (actions : Js.Object loc) (key : string) :
  key <> "" ->
  reportActionsMaxSequenceNumbers (callback (Some actions) (Some key) w).2
  = match lastWhere nonLoading (deref (heap w) <$> Underscore.toArray actions) with
    | Some action =>
        match sequenceNumber action with
        | Some n =>
            <[extractCollectionItemID key := n]>
              (reportActionsMaxSequenceNumbers w)
        | None => reportActionsMaxSequenceNumbers w
        end
    | None => reportActionsMaxSequenceNumbers w
    end.
Proof.
  intros Hkey. unfold callback, Js.truthyString.
  rewrite bool_decide_false by done. simpl.
  unfold bind, writeReportActions, heapNow. simpl.
  rewrite lastWhere_at, lastWhere_fmap. unfold nonLoading.
  destruct (lastWhere _ (Underscore.toArray actions)) as [ref |]; simpl; [| done].
  by destruct (sequenceNumber (deref (heap w) ref)).
Qed.

Lemma callback_ignored (w : World) (actions : option (Js.Object loc))
    (key : option string) :
  actions = None \/ key = None \/ key = Some "" ->
  callback actions key w = (tt, w).
Proof.
  intros [-> | [-> | ->]]; [by destruct key | done | by destruct actions].
Qed.

Lemma lastWhere_none {A} (test : A -> bool) (l : list A) :
  Forall (fun x => test x = false) l -> lastWhere test l = None.
Proof.
  unfold lastWhere. induction 1 as [| x l Hx _ IH]; [done |].
  rewrite filter_cons_False; [done |]. rewrite Hx. by intros [].
Qed.

End Callback.

(** C3, as stated, fails when the collection holds a non-loading action with
    a sequence number but the last non-loading action has none: the callback
    returns early and the index keeps the value it had, here 3, which is not
    the sequence number of the last non-loading action. *)
Lemma callback_keeps_index_for_unnumbered_last :
  Exists (fun action => nonLoading action = true /\ is_Some (sequenceNumber action))
    (Underscore.toArray report42Draft)
  /\ reportActionsMaxSequenceNumbers
       (deliver (H := demoImports) report42Draft "reportActions_42" world42).2
     !! "42"
     <> (lastWhere nonLoading (Underscore.toArray report42Draft)
           |. sequenceNumber).
Proof.
  split.
  - apply Exists_cons_hd. split; [reflexivity | by eexists].
  - vm_compute. discriminate.
Qed.

(** C3 (amended): after the callback delivers, under a non-empty key, a
    collection whose last non-loading action in log order has a sequence
    number, the sequence index entry of the report equals that sequence
    number. *)
Theorem callback_sets_sequence_index `{Imports} (w : World)
    (actions : Js.Object loc) (key : string) (action : ReportAction) (n : Z) :
  key <> "" ->
  lastWhere nonLoading (deref (heap w) <$> Underscore.toArray actions)
  = Some action ->
  sequenceNumber action = Some n ->
  reportActionsMaxSequenceNumbers (callback (Some actions) (Some key) w).2
    !! extractCollectionItemID key
  = Some n.
Proof.
  intros Hkey Hlast Hseq.
  rewrite callback_index by done. rewrite Hlast, Hseq.
  apply lookup_insert_eq.
Qed.

Lemma callback_sets_sequence_index_witness :
  reportActionsMaxSequenceNumbers
    (callback (H := demoImports) (Some (allocObject report42 initialWorld).1)
       (Some "reportActions_42") (allocObject report42 initialWorld).2).2
    !! "42"
  = Some 3.
Proof.
  apply (callback_sets_sequence_index (H := demoImports)
           (allocObject report42 initialWorld).2
           (allocObject report42 initialWorld).1
           "reportActions_42" (comment 3 "bye") 3).
  - discriminate.
  - reflexivity.
  - reflexivity.
Defined.

(** C6: a delivery that holds only loading actions, or whose last
    non-loading action lacks a sequence number, leaves the sequence index as
    it was; no entry is cleared. *)
Theorem callback_keeps_sequence_index `{Imports} (w : World)
    (actions : Js.Object loc) (key : option string) :
  (Forall (fun action => isLoading action = Some true)
     (deref (heap w) <$> Underscore.toArray actions)
   \/ exists action,
        lastWhere nonLoading (deref (heap w) <$> Underscore.toArray actions)
        = Some action
        /\ sequenceNumber action = None) ->
  reportActionsMaxSequenceNumbers (callback (Some actions) key w).2
  = reportActionsMaxSequenceNumbers w.
Proof.
  intros Hcases.
  destruct key as [key |]; [| done].
  destruct (decide (key = "")) as [-> | Hkey]; [done |].
  rewrite callback_index by done.
  destruct Hcases as [Hloading | (action & -> & ->)]; [| done].
  rewrite lastWhere_none; [done |].
  eapply Forall_impl; [exact Hloading |]. intros action Hl.
  unfold nonLoading. by rewrite Hl.
Qed.

Lemma callback_keeps_sequence_index_witness :
  reportActionsMaxSequenceNumbers
    (deliver (H := demoImports) report42Loading "reportActions_42" world42).2
  !! "42" = Some 3
  /\ reportActionsMaxSequenceNumbers
       (deliver (H := demoImports) report42Draft "reportActions_42" world42).2
     !! "42" = Some 3.
Proof.
  split.
  - change (reportActionsMaxSequenceNumbers
              (callback (H := demoImports)
                 (Some (allocObject report42Loading world42).1)
                 (Some "reportActions_42")
                 (allocObject report42Loading world42).2).2 !! "42" = Some 3).
    rewrite (callback_keeps_sequence_index (H := demoImports)).
    + reflexivity.
    + left. vm_compute. repeat constructor.
  - change (reportActionsMaxSequenceNumbers
              (callback (H := demoImports)
                 (Some (allocObject report42Draft world42).1)
                 (Some "reportActions_42")
                 (allocObject report42Draft world42).2).2 !! "42" = Some 3).
    rewrite (callback_keeps_sequence_index (H := demoImports)).
    + reflexivity.
    + right. exists draft. split; reflexivity.
Defined.

(** ** Who writes the module-level objects *)

Section Writers.

Context `{Imports}.

Lemma getDeletedCommentsCount_world reportID threshold w :
  (getDeletedCommentsCount reportID threshold w).2 = w.
Proof. by rewrite getDeletedCommentsCount_run. Qed.

(** Only the callback writes the sequence index. *)
Lemma perform_index_unchanged (op : Operation) (w : World) :
  isCallback op = false ->
  reportActionsMaxSequenceNumbers (perform op w)
  = reportActionsMaxSequenceNumbers w.
Proof.
  destruct op as [actions key | r n | r o | r o | r n m | r n p]; simpl;
    intros Hop; try done.
  - by rewrite getDeletedCommentsCount_world.
  - by destruct (getLastVisibleMessageText_state w r o) as (merged & _ & -> & _).
  - by destruct (getLastVisibleReportAction_state w r o) as (merged & _ & -> & _).
  - unfold deleteOptimisticReportAction. by destruct (bool_decide _).
Qed.

(** The callback only assigns entries of the sequence index. *)
Lemma callback_keeps_entry actions key w reportID :
  is_Some (reportActionsMaxSequenceNumbers w !! reportID) ->
  is_Some (reportActionsMaxSequenceNumbers (callback actions key w).2
             !! reportID).
Proof.
  intros Hentry.
  destruct actions as [actions |]; [| by rewrite callback_ignored; auto].
  destruct key as [key |]; [| by rewrite callback_ignored; auto].
  destruct (decide (key = "")) as [-> | Hkey];
    [by rewrite callback_ignored; auto |].
  rewrite callback_index by done.
  destruct (lastWhere _ _) as [action |]; [| done].
  destruct (sequenceNumber action) as [n |]; [| done].
  rewrite lookup_insert. by destruct (decide _).
Qed.

Lemma perform_keeps_entry (op : Operation) (w : World) reportID :
  is_Some (reportActionsMaxSequenceNumbers w !! reportID) ->
  is_Some (reportActionsMaxSequenceNumbers (perform op w) !! reportID).
Proof.
  intros Hentry. destruct (isCallback op) eqn:Hop.
  - destruct op; try done. by apply callback_keeps_entry.
  - by rewrite perform_index_unchanged.
Qed.

End Writers.

(** C10: once the sequence index holds an entry for a report, the entry
    stays through every later operation of the module (the callback, the
    three queries, the two mutations); only the callback writes the index,
    and it only assigns. *)
Theorem sequence_index_entries_persist `{Imports} (ops : list Operation)
    (w : World) (reportID : string) :
  (is_Some (reportActionsMaxSequenceNumbers w !! reportID) ->
   is_Some (reportActionsMaxSequenceNumbers (performAll ops w) !! reportID))
  /\ (forall op,
        isCallback op = false ->
        reportActionsMaxSequenceNumbers (perform op w)
        = reportActionsMaxSequenceNumbers w).
Proof.
  split; [| intros op; apply perform_index_unchanged].
  revert w. induction ops as [| op ops IH]; intros w Hentry; [done |].
  simpl. apply IH. by apply perform_keeps_entry.
Qed.

Lemma sequence_index_entries_persist_witness :
  is_Some (reportActionsMaxSequenceNumbers world42 !! "42")
  /\ is_Some
       (reportActionsMaxSequenceNumbers
          (performAll (H := demoImports)
             [GetLastVisibleMessageText "42" None;
              DeleteOptimisticReportAction "42" (Js.KNum 3) (Js.Value "add");
              Callback (Some [(Js.KNum 1, 0%nat); (Js.KNum 2, 1%nat)])
                (Some "reportActions_42");
              Callback (Some []) (Some "reportActions_42");
              GetDeletedCommentsCount "42" 0]
             world42)
        !! "42").
Proof.
  assert (is_Some (reportActionsMaxSequenceNumbers world42 !! "42")) as Hentry
    by (by exists 3).
  split; [exact Hentry |].
  exact (proj1 (sequence_index_entries_persist (H := demoImports) _ world42 "42")
           Hentry).
Defined.

(** ** The two mutations *)

Lemma ownEntries_singleton {A} (key : Js.Key) (value : A) :
  Js.ownEntries [(key, value)] = [(key, value)].
Proof.
  unfold Js.ownEntries, Js.namedEntries, Js.indexedEntries. simpl.
  destruct (Js.arrayIndex key) eqn:Hkey.
  - rewrite filter_cons_False by (simpl; by rewrite Hkey). done.
  - rewrite filter_cons_True by (simpl; by rewrite Hkey). done.
Qed.

(** C4: with [pendingAction] equal to [ADD], [deleteOptimisticReportAction]
    issues one merge request whose patch maps the sequence number to [null],
    which removes the entry from the stored collection; with any other
    [pendingAction] it issues one merge request whose patch sets
    [pendingAction] and [errors] of that entry to [null] and nothing else,
    which leaves the entry in the collection with its other properties as
    they were.  Nothing else changes. *)
Theorem deleteOptimisticReportAction_spec `{Imports} (w : World)
    (reportID : string) (n : Js.Key) (pendingAction' : Js.nullable string)
    (collection : Js.Object ReportAction) :
  let w' := (deleteOptimisticReportAction reportID n pendingAction' w).2 in
  heap w' = heap w
  /\ reportActions w' = reportActions w
  /\ reportActionsMaxSequenceNumbers w' = reportActionsMaxSequenceNumbers w
  /\ exists patch,
       onyxRequests w'
       = onyxRequests w
           ++ [{| mergeKey := COLLECTION_REPORT_ACTIONS +:+ reportID;
                  mergePatch := patch |}]
       /\ (pendingAction' = Js.Value PENDING_ACTION_ADD ->
           patch = [(n, Js.Null)]
           /\ Js.getProp (Onyx.applyMerge collection patch) n = None)
       /\ (pendingAction' <> Js.Value PENDING_ACTION_ADD ->
           patch
           = [(n, Js.Value
                    {| actionName := None; sequenceNumber := None;
                       message := None; pendingAction := Js.Null;
                       errors := Js.Null; isLoading := None |})]
           /\ exists action,
                Js.getProp (Onyx.applyMerge collection patch) n = Some action
                /\ pendingAction action = Js.Null
                /\ errors action = Js.Null
                /\ forall stored,
                     Js.getProp collection n = Some stored ->
                     actionName action = actionName stored
                     /\ sequenceNumber action = sequenceNumber stored
                     /\ message action = message stored
                     /\ isLoading action = isLoading stored).
Proof.
  unfold deleteOptimisticReportAction.
  destruct (decide (pendingAction' = Js.Value PENDING_ACTION_ADD)) as [Hadd | Hother].
  - rewrite bool_decide_true by done. simpl. repeat split.
    eexists. split; [reflexivity |]. split; [| done].
    intros _. split; [done |].
    unfold Onyx.applyMerge. rewrite ownEntries_singleton. simpl.
    unfold Onyx.mergeEntry. simpl. rewrite getProp_deleteProp.
    by rewrite decide_True.
  - rewrite bool_decide_false by done. simpl. repeat split.
    eexists. split; [reflexivity |]. split; [done |].
    intros _. split; [done |].
    unfold Onyx.applyMerge. rewrite ownEntries_singleton. simpl.
    unfold Onyx.mergeEntry. simpl.
    destruct (Js.getProp collection n) as [stored |] eqn:Hstored.
    + eexists. rewrite getProp_setProp, decide_True by done.
      split; [reflexivity |]. simpl. split; [done |]. split; [done |].
      intros stored' [= <-]. split; [done |]. split; [done |].
      split; [| done]. by destruct (message stored).
    + eexists. rewrite getProp_setProp, decide_True by done.
      split; [reflexivity |]. simpl. split; [done |]. split; done.
Qed.

Lemma deleteOptimisticReportAction_spec_witness :
  Js.getProp (Onyx.applyMerge report42 [(Js.KNum 3, Js.Null)]) (Js.KNum 3)
  = None
  /\ onyxRequests
       (deleteOptimisticReportAction (H := demoImports) "42" (Js.KNum 3)
          (Js.Value "update") world42).2
     = [{| mergeKey := "reportActions_42";
           mergePatch :=
             [(Js.KNum 3,
               Js.Value
                 {| actionName := None; sequenceNumber := None;
                    message := None; pendingAction := Js.Null;
                    errors := Js.Null; isLoading := None |})] |}].
Proof.
  destruct (deleteOptimisticReportAction_spec (H := demoImports) world42 "42"
              (Js.KNum 3) (Js.Value "add") report42)
    as (_ & _ & _ & patch & _ & Hadd & _).
  destruct (Hadd eq_refl) as [-> Hgone].
  destruct (deleteOptimisticReportAction_spec (H := demoImports) world42 "42"
              (Js.KNum 3) (Js.Value "update") report42)
    as (_ & _ & _ & patch & Hrequests & _ & Hother).
  destruct (Hother ltac:(discriminate)) as [-> _].
  split; [exact Hgone | exact Hrequests].
Defined.

(** C8: [updateReportActionMessage] issues one merge request, under the key
    of the report, whose patch maps the sequence number to an object with the
    single property [message], a one-element array holding the given message.
    Nothing else changes; the continuation of the request does nothing.
    Applied by the store, the patch leaves an entry under the sequence number
    whose [message] is exactly that one-element array, whatever message was
    stored before, with the entry's other properties as they were; every
    other entry of the collection is as it was. *)
Theorem updateReportActionMessage_spec `{Imports} (w : World)
    (reportID : string) (n : Js.Key) (message' : MessagePart)
    (collection : Js.Object ReportAction) :
  let patch :=
    [(n, Js.Value
           {| actionName := None; sequenceNumber := None;
              message := Some [message'];
              pendingAction := Js.Undefined; errors := Js.Undefined;
              isLoading := None |})] in
  updateReportActionMessage reportID n message' w
  = (tt,
     {| heap := heap w;
        reportActionsMaxSequenceNumbers := reportActionsMaxSequenceNumbers w;
        reportActions := reportActions w;
        onyxRequests :=
          onyxRequests w
            ++ [{| mergeKey := COLLECTION_REPORT_ACTIONS +:+ reportID;
                   mergePatch := patch |}] |})
  /\ (exists action,
        Js.getProp (Onyx.applyMerge collection patch) n = Some action
        /\ message action = Some [message']
        /\ match Js.getProp collection n with
           | Some stored =>
               actionName action = actionName stored
               /\ sequenceNumber action = sequenceNumber stored
               /\ pendingAction action = pendingAction stored
               /\ errors action = errors stored
               /\ isLoading action = isLoading stored
           | None =>
               actionName action = None
               /\ sequenceNumber action = None
               /\ pendingAction action = Js.Undefined
               /\ errors action = Js.Undefined
               /\ isLoading action = None
           end)
  /\ forall other,
       other <> n ->
       Js.getProp (Onyx.applyMerge collection patch) other
       = Js.getProp collection other.
Proof.
  intros patch. split; [reflexivity |].
  unfold Onyx.applyMerge, patch. rewrite ownEntries_singleton. simpl.
  unfold Onyx.mergeEntry. simpl.
  destruct (Js.getProp collection n) as [stored |] eqn:Hstored.
  - split.
    + eexists. rewrite getProp_setProp, decide_True by done.
      split; [reflexivity |]. simpl. repeat split; done.
    + intros other Hother. by rewrite getProp_setProp, decide_False.
  - split.
    + eexists. rewrite getProp_setProp, decide_True by done.
      split; [reflexivity |]. simpl. repeat split; done.
    + intros other Hother. by rewrite getProp_setProp, decide_False.
Qed.

Lemma updateReportActionMessage_spec_witness :
  Js.getProp
    (Onyx.applyMerge report42
       [(Js.KNum 3,
         Js.Value
           {| actionName := None; sequenceNumber := None;
              message := Some [{| html := Some ""; text := None |}];
              pendingAction := Js.Undefined; errors := Js.Undefined;
              isLoading := None |})])
    (Js.KNum 3)
  = Some
      {| actionName := Some "ADDCOMMENT"; sequenceNumber := Some 3;
         message := Some [{| html := Some ""; text := None |}];
         pendingAction := Js.Undefined; errors := Js.Undefined;
         isLoading := None |}
  /\ Js.getProp
       (Onyx.applyMerge report42
          [(Js.KNum 3,
            Js.Value
              {| actionName := None; sequenceNumber := None;
                 message := Some [{| html := Some ""; text := None |}];
                 pendingAction := Js.Undefined; errors := Js.Undefined;
                 isLoading := None |})])
       (Js.KNum 1)
     = Some (comment 1 "hi").
Proof.
  destruct (updateReportActionMessage_spec (H := demoImports) world42 "42"
              (Js.KNum 3) {| html := Some ""; text := None |} report42)
    as (_ & (action & Hentry & Hmessage & Hrest) & Hothers).
  split.
  - rewrite Hentry. f_equal. simpl in Hrest.
    destruct Hrest as (Hname & Hnumber & Hpending & Herrors & Hloading).
    destruct action; simpl in *. congruence.
  - rewrite (Hothers (Js.KNum 1)) by discriminate. reflexivity.
Defined.

(** ** The overlaid sequence, entry by entry *)

Lemma assign_keys_NoDup object entry :
  NoDup object.*1 -> NoDup (Merged.assign object entry).*1.
Proof.
  intros Hnodup. unfold Merged.assign.
  destruct (Js.getProp object entry.1); by apply setProp_keys_NoDup.
Qed.

Lemma base_keys_NoDup object source :
  NoDup object.*1 -> NoDup (Merged.base object source).*1.
Proof.
  unfold Merged.base. generalize (Js.ownEntries source). intros entries.
  revert object. induction entries as [| entry entries IH]; intros object Hobj;
    simpl; [done |].
  by apply IH, assign_keys_NoDup.
Qed.

Lemma toArray_elem {A} (object : Js.Object A) (value : A) :
  NoDup object.*1 ->
  value ∈ Underscore.toArray object
  <-> exists key, Js.getProp object key = Some value.
Proof.
  intros Hnodup. unfold Underscore.toArray.
  rewrite list_elem_of_fmap. split.
  - intros ([key v] & -> & Hin). exists key. simpl.
    apply getProp_elem; [done |]. by rewrite <- (ownEntries_Permutation object).
  - intros [key Hget]. exists (key, value). split; [done |].
    rewrite (ownEntries_Permutation object). by apply getProp_elem.
Qed.

(** The merged collection holds, under every key, the last mirrored action
    filed under that key overlaid with the patch entry of that key. *)
Lemma merged_lookup (mirror : option (list ReportAction))
    (overlay : Js.Object ReportAction) (key : Js.Key) :
  NoDup overlay.*1 ->
  Js.getProp
    (Merged.merge [] [Underscore.indexBy mirror keyOfAction; overlay]) key
  = overlaid
      (lastWhere (fun action => bool_decide (keyOfAction action = key))
         (default [] mirror))
      (Js.getProp overlay key).
Proof.
  intros Hnodup. unfold Merged.merge. simpl.
  rewrite base_lookup by done. f_equal.
  rewrite base_lookup by apply indexBy_NoDup. simpl.
  apply indexBy_lookup.
Qed.

Lemma mergedActions_elem (mirror : option (list ReportAction))
    (overlay : Js.Object ReportAction) (action : ReportAction) :
  NoDup overlay.*1 ->
  action ∈ mergedActions mirror overlay
  <-> exists key,
        overlaid
          (lastWhere (fun existing => bool_decide (keyOfAction existing = key))
             (default [] mirror))
          (Js.getProp overlay key)
        = Some action.
Proof.
  intros Hnodup. unfold mergedActions. rewrite toArray_elem.
  - split; intros [key Hkey]; exists key; by rewrite merged_lookup in *.
  - unfold Merged.merge. simpl. apply base_keys_NoDup, base_keys_NoDup, NoDup_nil_2.
Qed.

Lemma contents_keys h (object : Js.Object loc) :
  (contents h object).*1 = object.*1.
Proof.
  unfold contents, mapValues. rewrite <- list_fmap_compose.
  by apply list_fmap_ext.
Qed.

(** C2: [getLastVisibleMessageText] lays the overlay over the mirrored
    actions, key by key: the sequence it scans holds exactly, for every key,
    the last mirrored action of that sequence number overlaid with the patch
    entry of that key.  It takes the last action of that sequence that the
    is-deleted predicate does not classify as deleted, takes the html of its
    first message part (the empty string when there is none), converts it to
    text and formats the text.  When no action is visible, the converter is
    given the empty string. *)
Theorem getLastVisibleMessageText_spec `{Imports} (w : World)
    (reportID : string) (actionsToMerge : option (Js.Object loc)) :
  allocated (heap w) (default [] (reportActions w !! reportID)) ->
  allocated (heap w) (default [] actionsToMerge).*2 ->
  NoDup (default [] actionsToMerge).*1 ->
  let overlay := contents (heap w) (default [] actionsToMerge) in
  let actions := mergedActions (mirrored w reportID) overlay in
  (forall action,
     action ∈ actions
     <-> exists key,
           overlaid
             (lastWhere
                (fun existing => bool_decide (keyOfAction existing = key))
                (default [] (mirrored w reportID)))
             (Js.getProp overlay key)
           = Some action)
  /\ (getLastVisibleMessageText reportID actionsToMerge w).1
     = formatReportLastMessageText
         (htmlToText
            (match lastWhere visible actions with
             | Some action => htmlOf action
             | None => ""
             end)).
Proof.
  intros Hmirror Hoverlay Hkeys overlay actions. split.
  - intros action. apply mergedActions_elem.
    unfold overlay. by rewrite contents_keys.
  - by apply getLastVisibleMessageText_run.
Qed.

Lemma getLastVisibleMessageText_spec_witness :
  (getLastVisibleMessageText (H := demoImports) "42"
     (Some (allocObject overlayDelete3 world42).1)
     (allocObject overlayDelete3 world42).2).1
  = "hi".
Proof.
  rewrite (proj2 (getLastVisibleMessageText_spec (H := demoImports)
                    (allocObject overlayDelete3 world42).2 "42"
                    (Some (allocObject overlayDelete3 world42).1)
                    ltac:(apply (bool_decide_unpack _); vm_compute; exact I)
                    ltac:(apply (bool_decide_unpack _); vm_compute; exact I)
                    ltac:(apply (bool_decide_unpack _); vm_compute; exact I))).
  vm_compute. reflexivity.
Defined.

(** C5: the two last-visible queries run the same merge and select the same
    action from the same merged sequence; the text returned by
    [getLastVisibleMessageText] is the html of the first message part of the
    action returned by [getLastVisibleReportAction], converted and formatted
    (the html is the empty string when no action is returned). *)
Theorem lastVisible_queries_agree `{Imports} (w : World) (reportID : string)
    (actionsToMerge : option (Js.Object loc)) :
  let found := getLastVisibleReportAction reportID actionsToMerge w in
  getLastVisibleMessageText reportID actionsToMerge w
  = (formatReportLastMessageText
       (htmlToText
          (match deref (heap found.2) <$> found.1 with
           | Some action => htmlOf action
           | None => ""
           end)), found.2)
  /\ exists merged,
       LodashMerge.merge []
         [Underscore.indexBy (reportActions w !! reportID)
            (fun action => Js.keyOf (sequenceNumber (deref (heap w) action)));
          default [] actionsToMerge] w
       = (merged, found.2)
       /\ found.1
          = lastWhere (fun ref => visible (deref (heap found.2) ref))
              (Underscore.toArray merged).
Proof.
  unfold getLastVisibleReportAction, getLastVisibleMessageText, bind,
    readReportActions, heapNow, ret.
  destruct (LodashMerge.merge _ _ w) as [merged w']. simpl. split.
  - do 3 f_equal.
    destruct (Js.at_ _ _) as [ref |]; simpl; [| done].
    unfold htmlOf.
    by destruct (message (deref (heap w') ref)) as [[| part parts] |].
  - exists merged. split; [done |]. apply lastWhere_at.
Qed.

(** ** Overlays and the mirror *)

Lemma mirrored_frame (w w' : World) (merged : Js.Object loc) (reportID : string) :
  mergeState (heap w) w w' merged ->
  allocated (heap w) (default [] (reportActions w !! reportID)) ->
  mirrored w' reportID = mirrored w reportID
  /\ allocated (heap w') (default [] (reportActions w' !! reportID)).
Proof.
  intros ([extra Hheap] & _ & Hsame & _) Halloc.
  unfold mirrored. rewrite Hsame, Hheap.
  destruct (reportActions w !! reportID) as [refs |]; simpl in *;
    [| split; [done | apply Forall_nil_2]].
  split.
  - f_equal. apply Forall_fmap_ext_1.
    eapply Forall_impl; [exact Halloc |]. intros ref Href. simpl.
    by apply deref_app_l.
  - eapply Forall_impl; [exact Halloc |]. intros ref Href. simpl in *.
    rewrite length_app. lia.
Qed.

(** C7: a last-visible query called with an overlay, whatever the overlay
    is, leaves the mirrored log of the report as it was (every object that
    existed before the call keeps its properties; the call only creates
    objects); the same query called afterwards without an overlay returns
    what it returns on the world before the first call, which is determined
    by the mirrored log alone. *)
Theorem overlay_leaves_mirror_untouched `{Imports} (w : World)
    (reportID : string) (overlay : Js.Object loc) :
  allocated (heap w) (default [] (reportActions w !! reportID)) ->
  let afterText := (getLastVisibleMessageText reportID (Some overlay) w).2 in
  let afterAction := (getLastVisibleReportAction reportID (Some overlay) w).2 in
  let pristine := mergedActions (mirrored w reportID) [] in
  (mirrored afterText reportID = mirrored w reportID
   /\ exists created, heap afterText = heap w ++ created)
  /\ (mirrored afterAction reportID = mirrored w reportID
      /\ exists created, heap afterAction = heap w ++ created)
  /\ (getLastVisibleMessageText reportID None afterText).1
     = (getLastVisibleMessageText reportID None w).1
  /\ (getLastVisibleMessageText reportID None afterText).1
     = formatReportLastMessageText
         (htmlToText
            (match lastWhere visible pristine with
             | Some action => htmlOf action
             | None => ""
             end))
  /\ (let second := getLastVisibleReportAction reportID None afterAction in
      let first := getLastVisibleReportAction reportID None w in
      deref (heap second.2) <$> second.1 = deref (heap first.2) <$> first.1
      /\ deref (heap second.2) <$> second.1 = lastWhere visible pristine).
Proof.
  intros Hmirror afterText afterAction pristine.
  destruct (getLastVisibleMessageText_state w reportID (Some overlay))
    as [merged1 Hstate1].
  destruct (getLastVisibleReportAction_state w reportID (Some overlay))
    as [merged2 Hstate2].
  fold afterText in Hstate1. fold afterAction in Hstate2.
  clearbody afterText afterAction. cbv zeta.
  destruct (mirrored_frame w afterText merged1 reportID Hstate1 Hmirror)
    as [Hsame1 Halloc1].
  destruct (mirrored_frame w afterAction merged2 reportID Hstate2 Hmirror)
    as [Hsame2 Halloc2].
  assert (forall h, allocated h (default [] (None : option (Js.Object loc))).*2)
    as Hnone by (intros h; apply Forall_nil_2).
  rewrite (getLastVisibleMessageText_run w reportID None) by done.
  rewrite (getLastVisibleMessageText_run afterText reportID None) by done.
  rewrite (getLastVisibleReportAction_run w reportID None) by done.
  rewrite (getLastVisibleReportAction_run afterAction reportID None) by done.
  rewrite Hsame1, Hsame2.
  destruct Hstate1 as (Hext1 & _). destruct Hstate2 as (Hext2 & _).
  repeat split; done.
Qed.

Lemma overlay_leaves_mirror_untouched_witness :
  mirrored
    (getLastVisibleMessageText (H := demoImports) "42"
       (Some (allocObject overlayDelete3 world42).1)
       (allocObject overlayDelete3 world42).2).2 "42"
  = Some [comment 1 "hi"; comment 2 ""; comment 3 "bye"]
  /\ (getLastVisibleMessageText (H := demoImports) "42" None
        (getLastVisibleMessageText (H := demoImports) "42"
           (Some (allocObject overlayDelete3 world42).1)
           (allocObject overlayDelete3 world42).2).2).1
     = "bye".
Proof.
  destruct (overlay_leaves_mirror_untouched (H := demoImports)
              (allocObject overlayDelete3 world42).2 "42"
              (allocObject overlayDelete3 world42).1
              ltac:(apply (bool_decide_unpack _); vm_compute; exact I))
    as ((Hmirror & _) & _ & Htext & _).
  split.
  - rewrite Hmirror. vm_compute. reflexivity.
  - rewrite Htext. vm_compute. reflexivity.
Defined.

(** ** Reachable worlds hold references to objects of the heap

    The statements about the last-visible queries assume that the array kept
    for the report refers to objects of the heap.  That is an invariant: it
    holds initially, every delivery by the store establishes it for the array
    it writes, and no query or mutation breaks it. *)

Lemma initialWorld_wellFormed : wellFormed initialWorld.
Proof. intros reportID refs Hrefs. simpl in Hrefs. by rewrite lookup_empty in Hrefs. Qed.

Lemma wellFormed_grows (w w' : World) (created : list ReportAction) :
  wellFormed w ->
  heap w' = heap w ++ created ->
  reportActions w' = reportActions w ->
  wellFormed w'.
Proof.
  intros Hwf Hheap Hmirror reportID refs Hrefs.
  rewrite Hmirror in Hrefs. unfold allocated. rewrite Hheap.
  eapply Forall_impl; [exact (Hwf reportID refs Hrefs) |].
  intros ref Href. simpl in *. rewrite length_app. lia.
Qed.

Lemma allocInto_run (values : Js.Object ReportAction) :
  forall (acc : Js.Object loc) (w : World),
    allocated (heap w) acc.*2 ->
    let created :=
      foldM (fun object entry =>
               bind (alloc entry.2) (fun ref => ret (object ++ [(entry.1, ref)])))
        values acc w in
    heap created.2 = heap w ++ values.*2
    /\ reportActions created.2 = reportActions w
    /\ reportActionsMaxSequenceNumbers created.2
       = reportActionsMaxSequenceNumbers w
    /\ onyxRequests created.2 = onyxRequests w
    /\ allocated (heap created.2) created.1.*2
    /\ contents (heap created.2) created.1 = contents (heap w) acc ++ values.
Proof.
  induction values as [| [key value] values IH]; intros acc w Hacc; cbv zeta.
  - simpl. rewrite !app_nil_r. by repeat split.
  - set (w1 := (alloc value w).2).
    set (acc1 := acc ++ [(key, length (heap w))]).
    change (foldM _ ((key, value) :: values) acc w)
      with (foldM (fun object entry =>
                     bind (alloc entry.2)
                       (fun ref => ret (object ++ [(entry.1, ref)])))
              values acc1 w1).
    assert (allocated (heap w1) acc1.*2) as Hacc1.
    { unfold acc1, w1. simpl. rewrite fmap_app. apply Forall_app. split.
      - eapply Forall_impl; [exact Hacc |]. intros ref Href. simpl in *.
        rewrite length_app. simpl. lia.
      - apply Forall_singleton. simpl. rewrite length_app. simpl. lia. }
    destruct (IH acc1 w1 Hacc1) as (Hh & Hm & Hi & Ho & Ha & Hc).
    rewrite Hc, Hm, Hi, Ho. split; [| repeat split; try done].
    + rewrite Hh. unfold w1. simpl. by rewrite <- app_assoc.
    + unfold acc1, w1. simpl. unfold contents at 1, mapValues.
      rewrite fmap_app. simpl.
      fold (mapValues (deref (heap w ++ [value])) acc).
      fold (contents (heap w ++ [value]) acc).
      rewrite contents_app_l by done.
      unfold deref. rewrite lookup_app_r by lia.
      rewrite Nat.sub_diag. simpl. by rewrite <- app_assoc.
Qed.

(** The objects created for a delivery are new, hold the delivered values and
    leave everything else alone. *)
Lemma allocObject_run (values : Js.Object ReportAction) (w : World) :
  let created := allocObject values w in
  heap created.2 = heap w ++ values.*2
  /\ reportActions created.2 = reportActions w
  /\ reportActionsMaxSequenceNumbers created.2 = reportActionsMaxSequenceNumbers w
  /\ onyxRequests created.2 = onyxRequests w
  /\ allocated (heap created.2) created.1.*2
  /\ contents (heap created.2) created.1 = values.
Proof.
  apply (allocInto_run values [] w). apply Forall_nil_2.
Qed.

Section Reachable.

Context `{Imports}.

(** The mirror after a delivery: the array of the report is replaced as a
    whole by the delivered actions; nothing on the heap changes. *)
Lemma callback_mirror (w : World) (actions : Js.Object loc) (key : string) :
  key <> "" ->
  reportActions (callback (Some actions) (Some key) w).2
  = <[extractCollectionItemID key := Underscore.toArray actions]>
      (reportActions w)
  /\ heap (callback (Some actions) (Some key) w).2 = heap w.
Proof.
  intros Hkey. unfold callback, Js.truthyString.
  rewrite bool_decide_false by done. simpl.
  unfold bind, writeReportActions, heapNow. simpl.
  destruct (Js.at_ _ _) as [ref |]; simpl; [| done].
  by destruct (sequenceNumber (deref (heap w) ref)).
Qed.

Lemma callback_wellFormed (w : World) (actions : option (Js.Object loc))
    (key : option string) :
  wellFormed w ->
  allocated (heap w) (default [] actions).*2 ->
  wellFormed (callback actions key w).2.
Proof.
  intros Hwf Halloc.
  destruct actions as [actions |]; [| by rewrite callback_ignored; auto].
  destruct key as [key |]; [| by rewrite callback_ignored; auto].
  destruct (decide (key = "")) as [-> | Hkey];
    [by rewrite callback_ignored; auto |].
  destruct (callback_mirror w actions key Hkey) as [Hmirror Hheap].
  intros reportID refs. rewrite Hmirror, Hheap, lookup_insert.
  destruct (decide _) as [_ | _]; [| apply Hwf].
  intros [= <-]. unfold Underscore.toArray.
  by apply ownEntries_allocated.
Qed.

Lemma deliver_wellFormed (w : World) (collection : Js.Object ReportAction)
    (key : string) :
  wellFormed w -> wellFormed (deliver collection key w).2.
Proof.
  intros Hwf. unfold deliver, bind.
  pose proof (allocObject_run collection w) as Hrun. cbv zeta in Hrun.
  destruct (allocObject collection w) as [actions w1].
  destruct Hrun as (Hheap & Hmirror & _ & _ & Halloc & _).
  simpl in Hheap, Hmirror, Halloc.
  apply callback_wellFormed; [| done].
  by apply (wellFormed_grows w w1 collection.*2).
Qed.

Lemma perform_wellFormed (op : Operation) (w : World) :
  wellFormed w ->
  (forall actions key,
     op = Callback actions key -> allocated (heap w) (default [] actions).*2) ->
  wellFormed (perform op w).
Proof.
  intros Hwf Hdelivered.
  destruct op as [actions key | r n | r o | r o | r n m | r n p]; simpl.
  - apply callback_wellFormed; [done | by eapply Hdelivered].
  - by rewrite getDeletedCommentsCount_world.
  - destruct (getLastVisibleMessageText_state w r o)
      as (merged & [created Hheap] & _ & Hmirror & _).
    by apply (wellFormed_grows w _ created).
  - destruct (getLastVisibleReportAction_state w r o)
      as (merged & [created Hheap] & _ & Hmirror & _).
    by apply (wellFormed_grows w _ created).
  - done.
  - unfold deleteOptimisticReportAction. by destruct (bool_decide _).
Qed.

End Reachable.

(** ** The scenario of the documentation

    Report 42 holds "hi" at 1, a deleted comment at 2 and "bye" at 3. *)

Example scenario_deleted_comments :
  (getDeletedCommentsCount (H := demoImports) "42" 0 world42).1 = 1.
Proof. vm_compute. reflexivity. Qed.

Example scenario_last_visible_text :
  (getLastVisibleMessageText (H := demoImports) "42" None world42).1 = "bye".
Proof. vm_compute. reflexivity. Qed.

Example scenario_last_visible_action :
  let found := getLastVisibleReportAction (H := demoImports) "42" None world42 in
  deref (heap found.2) <$> found.1 = Some (comment 3 "bye").
Proof. vm_compute. reflexivity. Qed.

Example scenario_after_optimistic_delete :
  mirrored world42Deleted "42" = Some [comment 1 "hi"; comment 2 ""]
  /\ (getLastVisibleMessageText (H := demoImports) "42" None world42Deleted).1
     = "hi".
Proof. vm_compute. split; reflexivity. Qed.

Example scenario_overlay_preview :
  (getLastVisibleMessageText (H := demoImports) "42"
     (Some (allocObject overlayDelete3 world42).1)
     (allocObject overlayDelete3 world42).2).1
  = "hi".
Proof. vm_compute. reflexivity. Qed.

(** ** Committed logs are scanned in log order

    For a log of committed actions and no overlay, filing the actions by
    sequence number and enumerating them again gives the log back: the
    last-visible queries then scan the mirrored log itself. *)

Lemma ascendingFrom_weaken lo lo' keys :
  lo' <= lo -> ascendingFrom lo keys -> ascendingFrom lo' keys.
Proof.
  intros Hle Hasc. destruct Hasc as [| lo n keys Hlo Hmax Hrest].
  - constructor.
  - constructor; [lia | done | done].
Qed.

Lemma ascendingFrom_elem lo keys key :
  ascendingFrom lo keys -> key ∈ keys ->
  exists n, key = Js.KNum n /\ lo <= n <= 4294967294.
Proof.
  induction 1 as [| lo n keys Hlo Hmax Hrest IH]; intros Hin.
  - by apply elem_of_nil in Hin.
  - apply elem_of_cons in Hin as [-> | Hin].
    + exists n. split; [done | lia].
    + destruct (IH Hin) as (m & -> & Hm). exists m. split; [done | lia].
Qed.

Lemma ascendingFrom_NoDup lo keys : ascendingFrom lo keys -> NoDup keys.
Proof.
  induction 1 as [| lo n keys Hlo Hmax Hrest IH]; [apply NoDup_nil_2 |].
  apply NoDup_cons. split; [| done].
  intros Hin. destruct (ascendingFrom_elem _ _ _ Hrest Hin) as (m & [= ->] & Hm).
  lia.
Qed.

Lemma insertIndexed_front {A} i (entry : Js.Key * A) run :
  Forall (fun ie => i < ie.1) run ->
  Js.insertIndexed i entry run = (i, entry) :: run.
Proof.
  destruct run as [| [j e] run]; [done |]. simpl.
  intros [Hlt _]%Forall_cons. simpl in Hlt.
  by destruct (Z.ltb_spec i j); [| lia].
Qed.

Lemma indexedEntries_ascending {A} (object : Js.Object A) lo :
  0 <= lo -> ascendingFrom lo object.*1 ->
  (Js.indexedEntries object).*2 = object
  /\ Forall (fun ie => lo <= ie.1) (Js.indexedEntries object)
  /\ Js.namedEntries object = [].
Proof.
  revert lo. induction object as [| [key value] object IH]; intros lo Hlo Hasc.
  - by repeat split.
  - rewrite fmap_cons in Hasc. simpl in Hasc.
    inversion Hasc as [| lo' n keys Hn Hmax Hrest]; subst.
    destruct (IH (n + 1) ltac:(lia) Hrest) as (Hrun & Hbound & Hnamed).
    assert (Js.arrayIndex (Js.KNum n) = Some n) as Hindex.
    { simpl. destruct (Z.leb_spec 0 n); [| lia].
      by destruct (Z.leb_spec n 4294967294); [| lia]. }
    assert (Js.indexedEntries ((Js.KNum n, value) :: object)
            = (n, (Js.KNum n, value)) :: Js.indexedEntries object) as Hcons.
    { change (Js.indexedEntries ((Js.KNum n, value) :: object))
        with (match Js.arrayIndex (Js.KNum n) with
              | Some i =>
                  Js.insertIndexed i (Js.KNum n, value)
                    (Js.indexedEntries object)
              | None => Js.indexedEntries object
              end).
      rewrite Hindex. apply insertIndexed_front.
      eapply Forall_impl; [exact Hbound |]. intros ie Hie. simpl in Hie. lia. }
    rewrite Hcons. split; [| split].
    + rewrite fmap_cons. simpl. by rewrite Hrun.
    + apply Forall_cons. split; [simpl; lia |].
      eapply Forall_impl; [exact Hbound |]. intros ie Hie. simpl in Hie. lia.
    + unfold Js.namedEntries.
      rewrite filter_cons_False by (simpl fst; by rewrite Hindex).
      exact Hnamed.
Qed.

(** An object whose keys are ascending array indices is enumerated in the
    order it is written in. *)
Lemma ownEntries_ascending {A} (object : Js.Object A) :
  ascendingFrom 0 object.*1 -> Js.ownEntries object = object.
Proof.
  intros Hasc.
  destruct (indexedEntries_ascending object 0 ltac:(lia) Hasc)
    as (Hrun & _ & Hnamed).
  unfold Js.ownEntries. by rewrite Hrun, Hnamed, app_nil_r.
Qed.

Lemma indexBy_fold_distinct {A} (iteratee : A -> Js.Key) (l : list A) :
  forall acc : Js.Object A,
    NoDup (acc.*1 ++ (iteratee <$> l)) ->
    fold_left (fun result value => Js.setProp result (iteratee value) value) l acc
    = acc ++ ((fun x => (iteratee x, x)) <$> l).
Proof.
  induction l as [| x l IH]; intros acc Hnodup; simpl.
  - by rewrite app_nil_r.
  - rewrite fmap_cons in Hnodup.
    assert (iteratee x ∉ acc.*1) as Hfresh.
    { apply NoDup_app in Hnodup as (_ & Hdisjoint & _).
      intros Hin. apply (Hdisjoint _ Hin). apply list_elem_of_here. }
    rewrite setProp_fresh by (by apply getProp_None).
    rewrite IH.
    + by rewrite <- app_assoc.
    + rewrite fmap_app. simpl. rewrite <- app_assoc. exact Hnodup.
Qed.

Lemma fold_assign_distinct (entries : Js.Object ReportAction) :
  forall acc : Js.Object ReportAction,
    NoDup (acc.*1 ++ entries.*1) ->
    fold_left Merged.assign entries acc = acc ++ entries.
Proof.
  induction entries as [| [key value] entries IH]; intros acc Hnodup; simpl.
  - by rewrite app_nil_r.
  - rewrite fmap_cons in Hnodup. simpl in Hnodup.
    assert (key ∉ acc.*1) as Hfresh.
    { apply NoDup_app in Hnodup as (_ & Hdisjoint & _).
      intros Hin. apply (Hdisjoint _ Hin). apply list_elem_of_here. }
    unfold Merged.assign at 2. simpl.
    rewrite (proj2 (getProp_None acc key) Hfresh).
    rewrite setProp_fresh by (by apply getProp_None).
    rewrite IH.
    + by rewrite <- app_assoc.
    + rewrite fmap_app. simpl. rewrite <- app_assoc. exact Hnodup.
Qed.

Lemma mergedActions_committed (log : list ReportAction) :
  committedLog log -> mergedActions (Some log) [] = log.
Proof.
  unfold committedLog, mergedActions. intros Hasc.
  assert (Underscore.indexBy (Some log) keyOfAction
          = (fun action => (keyOfAction action, action)) <$> log) as Hindexed.
  { unfold Underscore.indexBy. simpl.
    rewrite indexBy_fold_distinct; [done |]. simpl.
    by apply (ascendingFrom_NoDup 0). }
  assert (((fun action => (keyOfAction action, action)) <$> log).*1
          = keyOfAction <$> log) as Hkeys.
  { rewrite <- list_fmap_compose. by apply list_fmap_ext. }
  rewrite Hindexed. unfold Merged.merge, Merged.base. simpl.
  rewrite ownEntries_ascending by (by rewrite Hkeys).
  rewrite fold_assign_distinct
    by (simpl; rewrite Hkeys; by apply (ascendingFrom_NoDup 0)).
  simpl. unfold Underscore.toArray.
  rewrite ownEntries_ascending by (by rewrite Hkeys).
  rewrite <- list_fmap_compose. simpl.
  rewrite <- (list_fmap_id log) at 2. by apply list_fmap_ext.
Qed.

(** For a committed log and no overlay, the text is that of the last mirrored
    action that is not deleted. *)
Lemma getLastVisibleMessageText_committed `{Imports} (w : World)
    (reportID : string) (log : list ReportAction) :
  allocated (heap w) (default [] (reportActions w !! reportID)) ->
  mirrored w reportID = Some log ->
  committedLog log ->
  (getLastVisibleMessageText reportID None w).1
  = formatReportLastMessageText
      (htmlToText
         (match lastWhere visible log with
          | Some action => htmlOf action
          | None => ""
          end)).
Proof.
  intros Halloc Hlog Hcommitted.
  rewrite getLastVisibleMessageText_run by (done || apply Forall_nil_2).
  rewrite Hlog. simpl. unfold contents, mapValues. simpl.
  by rewrite mergedActions_committed.
Qed.

(** * Further properties of the module *)

(** ** Deliveries *)

(** The world after a delivery under a non-empty key, in full. *)
Lemma callback_run `{Imports} (w : World) (actions : Js.Object loc)
    (key : string) :
  key <> "" ->
  callback (Some actions) (Some key) w
  = (tt,
     {| heap := heap w;
        reportActionsMaxSequenceNumbers :=
          match lastWhere nonLoading
                  (deref (heap w) <$> Underscore.toArray actions) with
          | Some action =>
              match sequenceNumber action with
              | Some n =>
                  <[extractCollectionItemID key := n]>
                    (reportActionsMaxSequenceNumbers w)
              | None => reportActionsMaxSequenceNumbers w
              end
          | None => reportActionsMaxSequenceNumbers w
          end;
        reportActions :=
          <[extractCollectionItemID key := Underscore.toArray actions]>
            (reportActions w);
        onyxRequests := onyxRequests w |}).
Proof.
  intros Hkey. unfold callback, Js.truthyString.
  rewrite bool_decide_false by done. simpl.
  unfold bind, writeReportActions, heapNow. simpl.
  rewrite lastWhere_at, lastWhere_fmap. unfold nonLoading.
  destruct (lastWhere _ (Underscore.toArray actions)) as [ref |]; simpl; [| done].
  by destruct (sequenceNumber (deref (heap w) ref)).
Qed.

(** X1: a delivery under a non-empty key replaces the array mirrored for its
    report by the delivered actions, in enumeration order, and touches
    nothing else: the arrays and index entries of the other reports, the
    action objects and the issued store requests are as before. *)
Theorem delivery_touches_its_report_only `{Imports} (w : World)
    (actions : Js.Object loc) (key : string) :
  key <> "" ->
  let w' := (callback (Some actions) (Some key) w).2 in
  reportActions w' !! extractCollectionItemID key
  = Some (Underscore.toArray actions)
  /\ (forall reportID,
        reportID <> extractCollectionItemID key ->
        reportActions w' !! reportID = reportActions w !! reportID
        /\ reportActionsMaxSequenceNumbers w' !! reportID
           = reportActionsMaxSequenceNumbers w !! reportID)
  /\ heap w' = heap w
  /\ onyxRequests w' = onyxRequests w.
Proof.
  intros Hkey w'. subst w'. rewrite callback_run by done. simpl.
  split; [apply lookup_insert_eq |]. split; [| done].
  intros reportID Hother. split; [by apply lookup_insert_ne |].
  destruct (lastWhere _ _) as [action |]; [| done].
  destruct (sequenceNumber action); [| done].
  by apply lookup_insert_ne.
Qed.

Lemma delivery_touches_its_report_only_witness :
  reportActions
    (callback (H := demoImports) (Some (allocObject report42Draft world42).1)
       (Some "reportActions_8") (allocObject report42Draft world42).2).2
  !! "8" = Some [3%nat; 4%nat]
  /\ reportActions
       (callback (H := demoImports) (Some (allocObject report42Draft world42).1)
          (Some "reportActions_8") (allocObject report42Draft world42).2).2
     !! "42" = Some [0%nat; 1%nat; 2%nat].
Proof.
  destruct (delivery_touches_its_report_only (H := demoImports)
              (allocObject report42Draft world42).2
              (allocObject report42Draft world42).1 "reportActions_8"
              ltac:(discriminate))
    as (Hown & Hothers & _).
  split; [exact Hown |].
  destruct (Hothers "42" ltac:(discriminate)) as [Hmirror _].
  rewrite Hmirror. reflexivity.
Defined.

(** X2: delivering the same collection under the same key twice in a row
    leaves the world as the first delivery left it. *)
Theorem redelivery_changes_nothing `{Imports} (w : World)
    (actions : option (Js.Object loc)) (key : option string) :
  callback actions key (callback actions key w).2 = callback actions key w.
Proof.
  destruct actions as [actions |]; [| by rewrite !callback_ignored by auto].
  destruct key as [key |]; [| by rewrite !callback_ignored by auto].
  destruct (decide (key = "")) as [-> | Hkey];
    [by rewrite !callback_ignored by auto |].
  rewrite (callback_run w) by done. cbn [snd].
  rewrite callback_run by done. simpl. f_equal.
  rewrite insert_insert_eq.
  destruct (lastWhere _ _) as [action |]; [| done].
  destruct (sequenceNumber action); [| done].
  by rewrite insert_insert_eq.
Qed.

(** ** The sequence index is the newest sequence number *)

Lemma insertIndexed_sorted {A} i (entry : Js.Key * A) run :
  StronglySorted (fun a b : Z * (Js.Key * A) => a.1 <= b.1) run ->
  StronglySorted (fun a b : Z * (Js.Key * A) => a.1 <= b.1)
    (Js.insertIndexed i entry run).
Proof.
  induction run as [| [j e] run IH]; simpl; intros Hsorted.
  - repeat constructor.
  - apply StronglySorted_inv in Hsorted as [Hrest Hhead].
    destruct (Z.ltb_spec i j) as [Hlt | Hge].
    + constructor; [by constructor |].
      apply Forall_cons. split; [simpl; lia |].
      eapply Forall_impl; [exact Hhead |]. intros x Hx. simpl in *. lia.
    + constructor; [by apply IH |].
      rewrite insertIndexed_Permutation. apply Forall_cons.
      split; [simpl; lia | done].
Qed.

Lemma indexedEntries_sorted {A} (object : Js.Object A) :
  StronglySorted (fun a b : Z * (Js.Key * A) => a.1 <= b.1)
    (Js.indexedEntries object).
Proof.
  induction object as [| [key value] object IH]; [constructor |].
  change (Js.indexedEntries ((key, value) :: object))
    with (match Js.arrayIndex key with
          | Some i => Js.insertIndexed i (key, value) (Js.indexedEntries object)
          | None => Js.indexedEntries object
          end).
  destruct (Js.arrayIndex key); [by apply insertIndexed_sorted | done].
Qed.

Lemma indexedEntries_index {A} (object : Js.Object A) ie :
  ie ∈ Js.indexedEntries object -> Js.arrayIndex ie.2.1 = Some ie.1.
Proof.
  induction object as [| [key value] object IH]; [by rewrite elem_of_nil |].
  change (Js.indexedEntries ((key, value) :: object))
    with (match Js.arrayIndex key with
          | Some i => Js.insertIndexed i (key, value) (Js.indexedEntries object)
          | None => Js.indexedEntries object
          end).
  destruct (Js.arrayIndex key) as [i |] eqn:Hkey; [| done].
  intros [-> | Hin]%insertIndexed_elem; [done | by apply IH].
Qed.

Lemma namedEntries_none {A} (object : Js.Object A) :
  Forall (fun entry => is_Some (Js.arrayIndex entry.1)) object ->
  Js.namedEntries object = []
  /\ filter (fun entry => Js.arrayIndex entry.1 <> None) object = object.
Proof.
  unfold Js.namedEntries. induction 1 as [| entry object [i Hi] _ [IH1 IH2]];
    [done |].
  rewrite filter_cons_False by (by rewrite Hi).
  rewrite filter_cons_True by (by rewrite Hi). by rewrite IH2.
Qed.

(** The last element that passes a test splits the sequence: it passes, and
    nothing after it does. *)
Lemma lastWhere_split {A} (test : A -> bool) (l : list A) (x : A) :
  lastWhere test l = Some x ->
  exists before after,
    l = before ++ x :: after
    /\ test x = true
    /\ Forall (fun y => test y = false) after.
Proof.
  unfold lastWhere. induction l as [| y l IH] using rev_ind; [done |].
  rewrite filter_app, filter_cons, filter_nil.
  destruct (test y) eqn:Hy.
  - rewrite decide_True by done. rewrite last_snoc. intros [= <-].
    exists l, []. by repeat split.
  - rewrite decide_False by (by intros []). rewrite app_nil_r. intros Hlast.
    destruct (IH Hlast) as (before & after & -> & Hx & Hafter).
    exists before, (after ++ [y]). rewrite <- app_assoc. split; [done |].
    split; [done |]. apply Forall_app. split; [done |].
    by apply Forall_singleton.
Qed.

Lemma lastWhere_is_Some {A} (test : A -> bool) (l : list A) (x : A) :
  x ∈ l -> test x = true -> is_Some (lastWhere test l).
Proof.
  intros Hin Hx. unfold lastWhere. apply last_is_Some.
  intros Hnil.
  assert (x ∈ filter (fun y => test y) l) as Hfiltered
    by (apply list_elem_of_filter; split; [by rewrite Hx | done]).
  rewrite Hnil in Hfiltered. by apply elem_of_nil in Hfiltered.
Qed.

Lemma arrayIndex_keyOf (sequenceNumber' : option Z) (i : Z) :
  Js.arrayIndex (Js.keyOf sequenceNumber') = Some i ->
  sequenceNumber' = Some i.
Proof.
  destruct sequenceNumber' as [z |]; simpl; [| done].
  by destruct (_ && _); intros [= ->].
Qed.

(** X3: when the delivered collection files every action under its own
    sequence number (an array index) and holds a non-loading action, the
    sequence index entry written by the callback is the greatest sequence
    number among the non-loading actions of the collection. *)
Theorem sequence_index_is_newest `{Imports} (w : World)
    (actions : Js.Object loc) (key : string) :
  key <> "" ->
  Forall (fun entry =>
            is_Some (Js.arrayIndex entry.1)
            /\ keyOfAction (deref (heap w) entry.2) = entry.1) actions ->
  Exists (fun entry => nonLoading (deref (heap w) entry.2) = true) actions ->
  exists n,
    reportActionsMaxSequenceNumbers (callback (Some actions) (Some key) w).2
      !! extractCollectionItemID key = Some n
    /\ Exists (fun entry =>
                 nonLoading (deref (heap w) entry.2) = true
                 /\ sequenceNumber (deref (heap w) entry.2) = Some n) actions
    /\ Forall (fun entry =>
                 nonLoading (deref (heap w) entry.2) = true ->
                 forall m,
                   sequenceNumber (deref (heap w) entry.2) = Some m -> m <= n)
         actions.
Proof.
  intros Hkey Hfiled Hsome.
  destruct (namedEntries_none actions) as [Hnamed Hall].
  { eapply Forall_impl; [exact Hfiled |]. by intros entry [Hi _]. }
  pose proof (indexedEntries_Permutation actions) as Hperm.
  rewrite Hall in Hperm.
  pose proof (indexedEntries_sorted actions) as Hsorted.
  assert (forall ie, ie ∈ Js.indexedEntries actions ->
            sequenceNumber (deref (heap w) ie.2.2) = Some ie.1) as Hseq.
  { intros ie Hie. apply arrayIndex_keyOf.
    pose proof (indexedEntries_index _ _ Hie) as Hindex.
    assert (ie.2 ∈ actions) as Hin by (by apply indexedEntries_elem).
    destruct (proj1 (Forall_forall _ _) Hfiled _ Hin) as [_ Hown].
    unfold keyOfAction in Hown. by rewrite Hown. }
  assert (deref (heap w) <$> Underscore.toArray actions
          = (fun ie : Z * (Js.Key * loc) => deref (heap w) ie.2.2)
              <$> Js.indexedEntries actions) as Harray.
  { unfold Underscore.toArray, Js.ownEntries.
    rewrite Hnamed, app_nil_r, <- !list_fmap_compose. done. }
  assert (is_Some (lastWhere
                     (fun ie : Z * (Js.Key * loc) =>
                        nonLoading (deref (heap w) ie.2.2))
                     (Js.indexedEntries actions))) as [newest Hnewest].
  { apply Exists_exists in Hsome as (entry & Hentry & Hvisible).
    rewrite <- Hperm in Hentry.
    apply list_elem_of_fmap in Hentry as (ie & -> & Hie).
    by apply (lastWhere_is_Some _ _ ie). }
  destruct (lastWhere_split _ _ _ Hnewest)
    as (before & after & Hrun & Hpasses & Hafter).
  assert (newest ∈ Js.indexedEntries actions) as Hin.
  { rewrite Hrun. apply elem_of_app. right. apply list_elem_of_here. }
  exists newest.1. split; [| split].
  - rewrite callback_index by done.
    rewrite Harray, lastWhere_fmap, Hnewest. simpl.
    rewrite (Hseq newest Hin). apply lookup_insert_eq.
  - apply Exists_exists. exists newest.2. split.
    + rewrite <- Hperm. apply list_elem_of_fmap. by exists newest.
    + split; [done | by apply Hseq].
  - apply Forall_forall. intros entry Hentry Hvisible m Hm.
    rewrite <- Hperm in Hentry.
    apply list_elem_of_fmap in Hentry as (ie & -> & Hie).
    rewrite (Hseq ie Hie) in Hm. injection Hm as <-.
    rewrite Hrun in Hie, Hsorted.
    apply elem_of_app in Hie as [Hbefore | Hrest].
    + apply (StronglySorted_app_1_elem_of _ _ _ ie newest Hsorted Hbefore).
      apply list_elem_of_here.
    + apply elem_of_cons in Hrest as [-> | Hlater]; [lia |].
      pose proof (proj1 (Forall_forall _ _) Hafter _ Hlater) as Hfails.
      simpl in Hfails. congruence.
Qed.

Lemma sequence_index_is_newest_witness :
  exists n,
    reportActionsMaxSequenceNumbers
      (callback (H := demoImports) (Some (allocObject report42 initialWorld).1)
         (Some "reportActions_42") (allocObject report42 initialWorld).2).2
      !! "42" = Some n.
Proof.
  destruct (sequence_index_is_newest (H := demoImports)
              (allocObject report42 initialWorld).2
              (allocObject report42 initialWorld).1 "reportActions_42")
    as (n & Hn & _).
  - discriminate.
  - repeat (apply Forall_cons_2; [split; [by eexists | reflexivity] |]).
    apply Forall_nil_2.
  - apply Exists_cons_hd. reflexivity.
  - exists n. exact Hn.
Defined.

(** ** Counting, its bounds and its threshold *)

Lemma filter_length_mono {A} (P Q : A -> bool) (l : list A) :
  (forall x, P x = true -> Q x = true) ->
  (length (filter (fun x => P x) l) <= length (filter (fun x => Q x) l))%nat.
Proof.
  intros Himpl. induction l as [| x l IH]; [done |].
  rewrite !filter_cons. destruct (P x) eqn:HP.
  - rewrite (Himpl x HP). rewrite !decide_True by done. simpl. lia.
  - rewrite decide_False by (by intros []).
    destruct (decide (Q x)); simpl; lia.
Qed.

(** X4: the count of deleted comments lies between 0 and the number of
    mirrored actions of the report, and raising the threshold never raises
    the count. *)
Theorem deleted_count_bounds `{Imports} (w : World) (reportID : string)
    (threshold threshold' : Z) :
  0 <= (getDeletedCommentsCount reportID threshold w).1
       <= Z.of_nat (length (default [] (reportActions w !! reportID)))
  /\ (threshold <= threshold' ->
      (getDeletedCommentsCount reportID threshold' w).1
      <= (getDeletedCommentsCount reportID threshold w).1).
Proof.
  rewrite !getDeletedCommentsCount_run. simpl. split.
  - split; [lia |]. apply inj_le.
    etransitivity; [apply length_filter |].
    unfold mirrored. destruct (reportActions w !! reportID); simpl; [| done].
    by rewrite length_fmap.
  - intros Hle. apply inj_le. apply filter_length_mono.
    intros action. unfold deletedCommentNotBelow.
    destruct (sequenceNumber action) as [n |]; [| done].
    destruct (Z.ltb_spec threshold' n), (Z.ltb_spec threshold n);
      try done; try lia.
Qed.

Lemma deleted_count_bounds_witness :
  (getDeletedCommentsCount (H := demoImports) "42" 2 world42).1
  <= (getDeletedCommentsCount (H := demoImports) "42" 0 world42).1.
Proof.
  apply (deleted_count_bounds (H := demoImports) world42 "42" 0 2). lia.
Defined.

(** ** Reports without mirrored actions *)

(** X5: for a report that has no mirrored actions, because nothing was
    delivered for it or because the delivered collection was empty, and with
    no overlay, [getLastVisibleReportAction] returns [undefined],
    [getLastVisibleMessageText] returns the formatted text of the empty
    string, and neither creates an object or changes anything else. *)
Theorem lastVisible_of_unmirrored_report `{Imports} (w : World)
    (reportID : string) :
  default [] (reportActions w !! reportID) = [] ->
  getLastVisibleReportAction reportID None w = (None, w)
  /\ getLastVisibleMessageText reportID None w
     = (formatReportLastMessageText (htmlToText ""), w).
Proof.
  intros Hnone.
  unfold getLastVisibleReportAction, getLastVisibleMessageText, bind,
    readReportActions, heapNow, ret, Underscore.indexBy.
  rewrite Hnone. split; reflexivity.
Qed.

Lemma lastVisible_of_unmirrored_report_witness :
  getLastVisibleReportAction (H := demoImports) "1" None world42
  = (None, world42)
  /\ (getLastVisibleMessageText (H := demoImports) "8" None
        (callback (H := demoImports) (Some []) (Some "reportActions_8")
           world42).2).1
     = "".
Proof.
  split.
  - apply (lastVisible_of_unmirrored_report (H := demoImports) world42 "1").
    reflexivity.
  - destruct (lastVisible_of_unmirrored_report (H := demoImports)
                (callback (H := demoImports) (Some [])
                   (Some "reportActions_8") world42).2 "8" eq_refl)
      as [_ ->].
    reflexivity.
Defined.

(** ** The action a query returns is a copy *)

Lemma at_elem {A} (array : list A) (index : Z) (x : A) :
  Js.at_ array index = Some x -> x ∈ array.
Proof.
  unfold Js.at_. destruct (index <? 0); [done |].
  intros Hlookup. by eapply list_elem_of_lookup_2.
Qed.

(** X6: the action returned by [getLastVisibleReportAction] is an object
    created by the call: it is none of the objects that existed before, so
    none of the mirrored ones, and writing to it cannot reach the mirror. *)
Theorem returned_action_is_a_copy `{Imports} (w : World) (reportID : string)
    (actionsToMerge : option (Js.Object loc)) (ref : loc) :
  (getLastVisibleReportAction reportID actionsToMerge w).1 = Some ref ->
  (length (heap w) <= ref
   < length (heap (getLastVisibleReportAction reportID actionsToMerge w).2))%nat
  /\ forall mirroredID refs,
       reportActions w !! mirroredID = Some refs ->
       allocated (heap w) refs ->
       ref ∉ refs.
Proof.
  destruct (query_merge w reportID (default [] actionsToMerge))
    as (merged & w' & Hrun & Hstate & _).
  unfold getLastVisibleReportAction, bind, readReportActions, heapNow, ret.
  rewrite Hrun. simpl. intros Hfound.
  assert (length (heap w) <= ref < length (heap w'))%nat as Hnew.
  { destruct Hstate as (_ & _ & _ & _ & Hrefs & _).
    apply (proj1 (Forall_forall _ _) Hrefs).
    apply at_elem in Hfound. unfold Underscore.toArray in Hfound.
    apply list_elem_of_fmap in Hfound as (entry & -> & Hentry).
    apply list_elem_of_fmap. exists entry. split; [done |].
    by apply ownEntries_elem. }
  split; [done |].
  intros mirroredID refs _ Halloc Hin.
  pose proof (proj1 (Forall_forall _ _) Halloc _ Hin) as Hold. simpl in Hold.
  lia.
Qed.

Lemma returned_action_is_a_copy_witness :
  (getLastVisibleReportAction (H := demoImports) "42" None world42).1
  = Some 5%nat
  /\ (length (heap world42) <= 5)%nat
  /\ 5%nat ∉ default [] (reportActions world42 !! "42").
Proof.
  destruct (returned_action_is_a_copy (H := demoImports) world42 "42" None
              5%nat eq_refl) as [[Hnew _] Hmirror].
  split; [reflexivity |]. split; [exact Hnew |].
  apply (Hmirror "42"); [reflexivity |].
  apply (bool_decide_unpack _). vm_compute. exact I.
Defined.

(** ** What a query depends on *)

Lemma assignMergeValue_local object entry (w1 w2 : World) :
  heap w1 = heap w2 ->
  (LodashMerge.assignMergeValue object entry w1).1
  = (LodashMerge.assignMergeValue object entry w2).1
  /\ heap (LodashMerge.assignMergeValue object entry w1).2
     = heap (LodashMerge.assignMergeValue object entry w2).2.
Proof.
  intros Hheap.
  unfold LodashMerge.assignMergeValue, bind, heapNow. simpl.
  destruct (Js.getProp object entry.1); simpl; by rewrite Hheap.
Qed.

Lemma foldM_local {A B} (f : B -> A -> Eff B) :
  (forall b x w1 w2,
     heap w1 = heap w2 ->
     (f b x w1).1 = (f b x w2).1 /\ heap (f b x w1).2 = heap (f b x w2).2) ->
  forall l b w1 w2,
    heap w1 = heap w2 ->
    (foldM f l b w1).1 = (foldM f l b w2).1
    /\ heap (foldM f l b w1).2 = heap (foldM f l b w2).2.
Proof.
  intros Hstep. induction l as [| x l IH]; intros b w1 w2 Hheap; [done |].
  simpl. unfold bind. destruct (Hstep b x w1 w2 Hheap) as [Hvalue Hnext].
  destruct (f b x w1) as [b1 w1'], (f b x w2) as [b2 w2']. simpl in *.
  subst b2. by apply IH.
Qed.

(** [_.merge] reads and writes objects only: its result depends on the heap
    and on nothing else of the world. *)
Lemma merge_local object sources (w1 w2 : World) :
  heap w1 = heap w2 ->
  (LodashMerge.merge object sources w1).1
  = (LodashMerge.merge object sources w2).1
  /\ heap (LodashMerge.merge object sources w1).2
     = heap (LodashMerge.merge object sources w2).2.
Proof.
  apply foldM_local. intros b source. apply foldM_local.
  intros b' entry. apply assignMergeValue_local.
Qed.

Section Locality.

Context `{Imports}.

(** The three queries for a report depend on the action objects and on the
    array mirrored for that report, and on nothing else. *)
Lemma queries_local (w1 w2 : World) (reportID : string) :
  heap w1 = heap w2 ->
  reportActions w1 !! reportID = reportActions w2 !! reportID ->
  (forall threshold,
     (getDeletedCommentsCount reportID threshold w1).1
     = (getDeletedCommentsCount reportID threshold w2).1)
  /\ (forall actionsToMerge,
        (getLastVisibleMessageText reportID actionsToMerge w1).1
        = (getLastVisibleMessageText reportID actionsToMerge w2).1)
  /\ (forall actionsToMerge,
        (getLastVisibleReportAction reportID actionsToMerge w1).1
        = (getLastVisibleReportAction reportID actionsToMerge w2).1).
Proof.
  intros Hheap Hmirror. split; [| split].
  - intros threshold. rewrite !getDeletedCommentsCount_run. simpl.
    unfold mirrored. by rewrite Hheap, Hmirror.
  - intros actionsToMerge.
    unfold getLastVisibleMessageText, bind, readReportActions, heapNow, ret.
    rewrite Hheap, Hmirror.
    match goal with
    | |- context [LodashMerge.merge ?o ?s w1] =>
        destruct (merge_local o s w1 w2 Hheap) as [Hvalue Hafter];
        destruct (LodashMerge.merge o s w1) as [m1 w1'];
        destruct (LodashMerge.merge o s w2) as [m2 w2']
    end.
    simpl in *. by rewrite Hvalue, Hafter.
  - intros actionsToMerge.
    unfold getLastVisibleReportAction, bind, readReportActions, heapNow, ret.
    rewrite Hheap, Hmirror.
    match goal with
    | |- context [LodashMerge.merge ?o ?s w1] =>
        destruct (merge_local o s w1 w2 Hheap) as [Hvalue Hafter];
        destruct (LodashMerge.merge o s w1) as [m1 w1'];
        destruct (LodashMerge.merge o s w2) as [m2 w2']
    end.
    simpl in *. by rewrite Hvalue, Hafter.
Qed.

End Locality.

(** X7: a delivery for one report does not change what the three queries
    return for any other report. *)
Theorem queries_ignore_other_deliveries `{Imports} (w : World)
    (actions : option (Js.Object loc)) (key : string) (reportID : string) :
  reportID <> extractCollectionItemID key ->
  let w' := (callback actions (Some key) w).2 in
  (forall threshold,
     (getDeletedCommentsCount reportID threshold w').1
     = (getDeletedCommentsCount reportID threshold w).1)
  /\ (forall actionsToMerge,
        (getLastVisibleMessageText reportID actionsToMerge w').1
        = (getLastVisibleMessageText reportID actionsToMerge w).1)
  /\ (forall actionsToMerge,
        (getLastVisibleReportAction reportID actionsToMerge w').1
        = (getLastVisibleReportAction reportID actionsToMerge w).1).
Proof.
  intros Hother w'. subst w'.
  destruct actions as [actions |]; [| by rewrite callback_ignored by auto].
  destruct (decide (key = "")) as [-> | Hkey];
    [by rewrite callback_ignored by auto |].
  apply queries_local.
  - by rewrite callback_run.
  - rewrite callback_run by done. simpl. by apply lookup_insert_ne.
Qed.

Lemma queries_ignore_other_deliveries_witness :
  (getLastVisibleMessageText (H := demoImports) "42" None
     (callback (H := demoImports) (Some []) (Some "reportActions_8")
        world42).2).1
  = "bye".
Proof.
  destruct (queries_ignore_other_deliveries (H := demoImports) world42
              (Some []) "reportActions_8" "42" ltac:(discriminate))
    as (_ & Htext & _).
  rewrite Htext. vm_compute. reflexivity.
Defined.

(** X8: a mutation only hands a request to the store; until the store
    delivers the outcome, the three queries return what they returned before
    the mutation, for every report. *)
Theorem mutations_are_unseen_until_delivered `{Imports} (op : Operation)
    (w : World) (reportID : string) :
  (exists r n m, op = UpdateReportActionMessage r n m)
  \/ (exists r n p, op = DeleteOptimisticReportAction r n p) ->
  (forall threshold,
     (getDeletedCommentsCount reportID threshold (perform op w)).1
     = (getDeletedCommentsCount reportID threshold w).1)
  /\ (forall actionsToMerge,
        (getLastVisibleMessageText reportID actionsToMerge (perform op w)).1
        = (getLastVisibleMessageText reportID actionsToMerge w).1)
  /\ (forall actionsToMerge,
        (getLastVisibleReportAction reportID actionsToMerge (perform op w)).1
        = (getLastVisibleReportAction reportID actionsToMerge w).1).
Proof.
  intros [(r & n & m & ->) | (r & n & p & ->)]; apply queries_local; simpl;
    try done.
  - unfold deleteOptimisticReportAction. by destruct (bool_decide _).
  - unfold deleteOptimisticReportAction. by destruct (bool_decide _).
Qed.

Lemma mutations_are_unseen_until_delivered_witness :
  (getLastVisibleMessageText (H := demoImports) "42" None
     (perform (H := demoImports)
        (DeleteOptimisticReportAction "42" (Js.KNum 3) (Js.Value "add"))
        world42)).1
  = "bye".
Proof.
  destruct (mutations_are_unseen_until_delivered (H := demoImports)
              (DeleteOptimisticReportAction "42" (Js.KNum 3) (Js.Value "add"))
              world42 "42")
    as (_ & Htext & _).
  - right. by eexists _, _, _.
  - rewrite Htext. vm_compute. reflexivity.
Defined.

(** ** Overlays on a committed log *)

Lemma entries_keys (log : list ReportAction) :
  ((fun action => (keyOfAction action, action)) <$> log).*1
  = keyOfAction <$> log.
Proof. rewrite <- list_fmap_compose. by apply list_fmap_ext. Qed.

Lemma entries_values (log : list ReportAction) :
  ((fun action => (keyOfAction action, action)) <$> log).*2 = log.
Proof.
  rewrite <- list_fmap_compose. rewrite <- (list_fmap_id log) at 2.
  by apply list_fmap_ext.
Qed.

(** A committed log filed by sequence number and copied into an empty
    destination: one property per action, in log order. *)
Lemma base_committed (log : list ReportAction) :
  committedLog log ->
  Merged.base [] (Underscore.indexBy (Some log) keyOfAction)
  = (fun action => (keyOfAction action, action)) <$> log.
Proof.
  unfold committedLog. intros Hasc.
  assert (Underscore.indexBy (Some log) keyOfAction
          = (fun action => (keyOfAction action, action)) <$> log) as ->.
  { unfold Underscore.indexBy. simpl.
    rewrite indexBy_fold_distinct; [done |]. simpl.
    by apply (ascendingFrom_NoDup 0). }
  unfold Merged.base.
  rewrite ownEntries_ascending by (by rewrite entries_keys).
  rewrite fold_assign_distinct; [done |].
  simpl. rewrite entries_keys. by apply (ascendingFrom_NoDup 0).
Qed.

Lemma getProp_middle {A} (before after : Js.Object A) key value :
  key ∉ before.*1 ->
  Js.getProp (before ++ (key, value) :: after) key = Some value.
Proof.
  induction before as [| [k v] before IH]; simpl.
  - intros _. by rewrite decide_True.
  - rewrite not_elem_of_cons. intros [Hne Hnotin].
    rewrite decide_False by done. by apply IH.
Qed.

Lemma setProp_middle {A} (before after : Js.Object A) key value value' :
  key ∉ before.*1 ->
  Js.setProp (before ++ (key, value) :: after) key value'
  = before ++ (key, value') :: after.
Proof.
  induction before as [| [k v] before IH]; simpl.
  - intros _. by rewrite decide_True.
  - rewrite not_elem_of_cons. intros [Hne Hnotin].
    rewrite decide_False by done. by rewrite IH.
Qed.

(** An overlay with one entry, for the sequence number of a mirrored action:
    the action is patched where it stands in the log. *)
Lemma mergedActions_patched (before after : list ReportAction)
    (action partial : ReportAction) :
  committedLog (before ++ action :: after) ->
  mergedActions (Some (before ++ action :: after))
    [(keyOfAction action, partial)]
  = before ++ mergeReportAction action partial :: after.
Proof.
  intros Hcommitted. unfold mergedActions, Merged.merge. simpl.
  rewrite base_committed by done.
  unfold Merged.base. rewrite ownEntries_singleton. simpl.
  rewrite fmap_app, fmap_cons.
  assert (keyOfAction action
          ∉ ((fun a => (keyOfAction a, a)) <$> before).*1) as Hfresh.
  { rewrite entries_keys. unfold committedLog in Hcommitted.
    apply ascendingFrom_NoDup in Hcommitted.
    rewrite fmap_app, fmap_cons in Hcommitted.
    apply NoDup_app in Hcommitted as (_ & Hdisjoint & _).
    intros Hin. apply (Hdisjoint _ Hin). apply list_elem_of_here. }
  unfold Merged.assign. simpl.
  rewrite getProp_middle by done. rewrite setProp_middle by done.
  unfold Underscore.toArray. rewrite ownEntries_ascending.
  - rewrite fmap_app, fmap_cons, !entries_values. done.
  - rewrite fmap_app, fmap_cons, !entries_keys. simpl.
    unfold committedLog in Hcommitted.
    by rewrite fmap_app, fmap_cons in Hcommitted.
Qed.

Lemma ascendingFrom_app_l lo keys keys' :
  ascendingFrom lo (keys ++ keys') -> ascendingFrom lo keys.
Proof.
  revert lo. induction keys as [| key keys IH]; intros lo Hasc; [constructor |].
  simpl in Hasc. inversion Hasc as [| lo' m rest Hm Hmax Hrest]; subst.
  constructor; [done | done | by apply IH].
Qed.

(** An overlay with one entry, for a sequence number greater than every
    mirrored one: the entry comes last. *)
Lemma mergedActions_appended (log : list ReportAction) (n : Z)
    (partial : ReportAction) :
  ascendingFrom 0 ((keyOfAction <$> log) ++ [Js.KNum n]) ->
  mergedActions (Some log) [(Js.KNum n, partial)] = log ++ [partial].
Proof.
  intros Hasc.
  assert (committedLog log) as Hcommitted
    by (by apply (ascendingFrom_app_l 0 _ [Js.KNum n])).
  pose proof (ascendingFrom_NoDup _ _ Hasc) as Hnodup.
  unfold mergedActions, Merged.merge. simpl.
  rewrite base_committed by done.
  unfold Merged.base. rewrite ownEntries_singleton. simpl.
  assert (Js.KNum n ∉ ((fun a => (keyOfAction a, a)) <$> log).*1) as Hfresh.
  { rewrite entries_keys.
    apply NoDup_app in Hnodup as (_ & Hdisjoint & _).
    intros Hin. apply (Hdisjoint _ Hin). apply list_elem_of_here. }
  unfold Merged.assign. simpl.
  rewrite (proj2 (getProp_None _ _) Hfresh).
  rewrite setProp_fresh by (by apply getProp_None).
  unfold Underscore.toArray. rewrite ownEntries_ascending.
  - by rewrite fmap_app, entries_values.
  - by rewrite fmap_app, entries_keys.
Qed.

(** X9: for a mirrored log of committed actions (sequence numbers that are
    array indices and strictly increase) and no overlay, the two last-visible
    queries scan the mirrored log itself: they return the last mirrored
    action that is not deleted, and the formatted text of its html. *)
Theorem lastVisible_of_committed_log `{Imports} (w : World)
    (reportID : string) (log : list ReportAction) :
  allocated (heap w) (default [] (reportActions w !! reportID)) ->
  mirrored w reportID = Some log ->
  committedLog log ->
  (getLastVisibleMessageText reportID None w).1
  = formatReportLastMessageText
      (htmlToText
         (match lastWhere visible log with
          | Some action => htmlOf action
          | None => ""
          end))
  /\ (let found := getLastVisibleReportAction reportID None w in
      deref (heap found.2) <$> found.1 = lastWhere visible log).
Proof.
  intros Halloc Hlog Hcommitted.
  rewrite getLastVisibleMessageText_run by (done || apply Forall_nil_2).
  cbv zeta.
  rewrite getLastVisibleReportAction_run by (done || apply Forall_nil_2).
  rewrite Hlog. simpl. unfold contents, mapValues. simpl.
  by rewrite mergedActions_committed.
Qed.

Lemma lastVisible_of_committed_log_witness :
  (getLastVisibleMessageText (H := demoImports) "42" None world42).1 = "bye".
Proof.
  rewrite (proj1 (lastVisible_of_committed_log (H := demoImports) world42 "42"
                    [comment 1 "hi"; comment 2 ""; comment 3 "bye"]
                    ltac:(apply (bool_decide_unpack _); vm_compute; exact I)
                    eq_refl
                    ltac:(repeat (constructor; try lia)))).
  vm_compute. reflexivity.
Defined.

(** X10: with an overlay of one entry filed under the sequence number of a
    mirrored action of a committed log, [getLastVisibleMessageText] scans the
    log with that action replaced, where it stands, by the action merged with
    the entry; the other actions are scanned as mirrored. *)
Theorem overlay_patches_in_place `{Imports} (w : World) (reportID : string)
    (before after : list ReportAction) (action : ReportAction) (patch : loc) :
  allocated (heap w) (default [] (reportActions w !! reportID)) ->
  (patch < length (heap w))%nat ->
  mirrored w reportID = Some (before ++ action :: after) ->
  committedLog (before ++ action :: after) ->
  (getLastVisibleMessageText reportID
     (Some [(keyOfAction action, patch)]) w).1
  = formatReportLastMessageText
      (htmlToText
         (match lastWhere visible
                  (before
                     ++ mergeReportAction action (deref (heap w) patch)
                     :: after)
          with
          | Some scanned => htmlOf scanned
          | None => ""
          end)).
Proof.
  intros Halloc Hpatch Hlog Hcommitted.
  rewrite getLastVisibleMessageText_run;
    [| done | by apply Forall_singleton].
  rewrite Hlog. simpl. unfold contents, mapValues. simpl.
  by rewrite mergedActions_patched.
Qed.

Lemma overlay_patches_in_place_witness :
  (getLastVisibleMessageText (H := demoImports) "42"
     (Some [(keyOfAction (comment 3 "bye"), 3%nat)])
     (allocObject overlayDelete3 world42).2).1
  = "hi".
Proof.
  rewrite (overlay_patches_in_place (H := demoImports)
             (allocObject overlayDelete3 world42).2 "42"
             [comment 1 "hi"; comment 2 ""] [] (comment 3 "bye") 3%nat
             ltac:(apply (bool_decide_unpack _); vm_compute; exact I)
             ltac:(vm_compute; lia)
             eq_refl
             ltac:(repeat (constructor; try lia))).
  vm_compute. reflexivity.
Defined.

(** X11: with an overlay of one entry filed under an array index greater
    than every sequence number of a committed log, [getLastVisibleMessageText]
    scans the log followed by the entry, so a visible entry is the one whose
    text is returned. *)
Theorem overlay_appends_new_action `{Imports} (w : World) (reportID : string)
    (log : list ReportAction) (n : Z) (patch : loc) :
  allocated (heap w) (default [] (reportActions w !! reportID)) ->
  (patch < length (heap w))%nat ->
  mirrored w reportID = Some log ->
  ascendingFrom 0 ((keyOfAction <$> log) ++ [Js.KNum n]) ->
  (getLastVisibleMessageText reportID (Some [(Js.KNum n, patch)]) w).1
  = formatReportLastMessageText
      (htmlToText
         (match lastWhere visible (log ++ [deref (heap w) patch]) with
          | Some scanned => htmlOf scanned
          | None => ""
          end))
  /\ (visible (deref (heap w) patch) = true ->
      (getLastVisibleMessageText reportID (Some [(Js.KNum n, patch)]) w).1
      = formatReportLastMessageText
          (htmlToText (htmlOf (deref (heap w) patch)))).
Proof.
  intros Halloc Hpatch Hlog Hasc.
  rewrite getLastVisibleMessageText_run;
    [| done | by apply Forall_singleton].
  rewrite Hlog. simpl. unfold contents, mapValues. simpl.
  rewrite mergedActions_appended by done. split; [done |].
  intros Hvisible. unfold lastWhere.
  rewrite filter_app, filter_cons_True, filter_nil by (by rewrite Hvisible).
  by rewrite last_snoc.
Qed.

Lemma overlay_appends_new_action_witness :
  (getLastVisibleMessageText (H := demoImports) "42"
     (Some [(Js.KNum 4, 3%nat)])
     (allocObject [(Js.KNum 4, comment 4 "new")] world42).2).1
  = "new".
Proof.
  destruct (overlay_appends_new_action (H := demoImports)
              (allocObject [(Js.KNum 4, comment 4 "new")] world42).2 "42"
              [comment 1 "hi"; comment 2 ""; comment 3 "bye"] 4 3%nat
              ltac:(apply (bool_decide_unpack _); vm_compute; exact I)
              ltac:(vm_compute; lia)
              eq_refl
              ltac:(repeat (constructor; try lia)))
    as [_ Hvisible].
  rewrite Hvisible; reflexivity.
Defined.

(** ** What the operations never do *)

Section Never.

Context `{Imports}.

Lemma callback_heap (actions : option (Js.Object loc)) (key : option string)
    (w : World) :
  heap (callback actions key w).2 = heap w
  /\ onyxRequests (callback actions key w).2 = onyxRequests w.
Proof.
  destruct actions as [actions |]; [| by rewrite callback_ignored by auto].
  destruct key as [key |]; [| by rewrite callback_ignored by auto].
  destruct (decide (key = "")) as [-> | Hkey];
    [by rewrite callback_ignored by auto |].
  by rewrite callback_run.
Qed.

Lemma perform_creates (op : Operation) (w : World) :
  exists created, heap (perform op w) = heap w ++ created.
Proof.
  destruct op as [actions key | r n | r o | r o | r n m | r n p]; simpl.
  - exists []. rewrite app_nil_r. apply callback_heap.
  - exists []. by rewrite getDeletedCommentsCount_world, app_nil_r.
  - by destruct (getLastVisibleMessageText_state w r o) as (merged & Hheap & _).
  - by destruct (getLastVisibleReportAction_state w r o) as (merged & Hheap & _).
  - exists []. by rewrite app_nil_r.
  - exists []. rewrite app_nil_r.
    unfold deleteOptimisticReportAction. by destruct (bool_decide _).
Qed.

Lemma perform_mirror (op : Operation) (w : World) :
  isCallback op = false -> reportActions (perform op w) = reportActions w.
Proof.
  destruct op as [actions key | r n | r o | r o | r n m | r n p]; simpl;
    intros Hop; try done.
  - by rewrite getDeletedCommentsCount_world.
  - by destruct (getLastVisibleMessageText_state w r o)
      as (merged & _ & _ & -> & _).
  - by destruct (getLastVisibleReportAction_state w r o)
      as (merged & _ & _ & -> & _).
  - unfold deleteOptimisticReportAction. by destruct (bool_decide _).
Qed.

Lemma perform_mirror_entry (op : Operation) (w : World) (reportID : string) :
  is_Some (reportActions w !! reportID) ->
  is_Some (reportActions (perform op w) !! reportID).
Proof.
  intros Hentry. destruct (isCallback op) eqn:Hop;
    [| by rewrite perform_mirror].
  destruct op as [actions key | | | | |]; try done. simpl.
  destruct actions as [actions |]; [| by rewrite callback_ignored by auto].
  destruct key as [key |]; [| by rewrite callback_ignored by auto].
  destruct (decide (key = "")) as [-> | Hkey];
    [by rewrite callback_ignored by auto |].
  rewrite callback_run by done. simpl. rewrite lookup_insert.
  by destruct (decide _).
Qed.

Lemma perform_requests (op : Operation) (w : World) :
  exists issued,
    onyxRequests (perform op w) = onyxRequests w ++ issued
    /\ length issued = (if isMutation op then 1 else 0)%nat.
Proof.
  destruct op as [actions key | r n | r o | r o | r n m | r n p]; simpl.
  - exists []. rewrite app_nil_r. split; [apply callback_heap | done].
  - exists []. by rewrite getDeletedCommentsCount_world, app_nil_r.
  - exists []. rewrite app_nil_r. split; [| done].
    by destruct (getLastVisibleMessageText_state w r o)
      as (merged & _ & _ & _ & -> & _).
  - exists []. rewrite app_nil_r. split; [| done].
    by destruct (getLastVisibleReportAction_state w r o)
      as (merged & _ & _ & _ & -> & _).
  - by eexists [_].
  - unfold deleteOptimisticReportAction.
    destruct (bool_decide _); by eexists [_].
Qed.

End Never.

(** X12: no operation of the module writes to, or removes, an action object
    that exists: through any sequence of deliveries, queries and mutations
    the objects that existed keep their properties, and the only change to
    the heap is that the last-visible queries create objects. *)
Theorem operations_only_create_objects `{Imports} (ops : list Operation)
    (w : World) :
  exists created, heap (performAll ops w) = heap w ++ created.
Proof.
  revert w. induction ops as [| op ops IH]; intros w.
  - exists []. by rewrite app_nil_r.
  - change (performAll (op :: ops) w) with (performAll ops (perform op w)).
    destruct (perform_creates op w) as [created1 Hop].
    destruct (IH (perform op w)) as [created2 Hrest].
    exists (created1 ++ created2).
    by rewrite Hrest, Hop, app_assoc.
Qed.

(** X13: only the callback writes the mirror, and it only assigns: a query
    or a mutation leaves every mirrored array as it is, and a report that
    has a mirrored array keeps one through every later operation. *)
Theorem mirror_is_written_by_deliveries_only `{Imports}
    (ops : list Operation) (w : World) (reportID : string) :
  (forall op,
     isCallback op = false -> reportActions (perform op w) = reportActions w)
  /\ (is_Some (reportActions w !! reportID) ->
      is_Some (reportActions (performAll ops w) !! reportID)).
Proof.
  split; [intros op; apply perform_mirror |].
  revert w. induction ops as [| op ops IH]; intros w Hentry; [done |].
  change (performAll (op :: ops) w) with (performAll ops (perform op w)).
  apply IH. by apply perform_mirror_entry.
Qed.

Lemma mirror_is_written_by_deliveries_only_witness :
  is_Some
    (reportActions
       (performAll (H := demoImports)
          [GetLastVisibleReportAction "42" None;
           Callback (Some []) (Some "reportActions_8");
           UpdateReportActionMessage "42" (Js.KNum 3)
             {| html := Some ""; text := Some "" |}]
          world42)
     !! "42").
Proof.
  apply (proj2 (mirror_is_written_by_deliveries_only (H := demoImports)
                  _ world42 "42")).
  by eexists.
Defined.

(** X14: store requests are issued by the two mutations only, one request
    per call, appended to those issued before: after any sequence of
    operations the earlier requests are still there, in order, followed by
    as many requests as the sequence holds mutations. *)
Theorem requests_are_issued_by_mutations_only `{Imports}
    (ops : list Operation) (w : World) :
  exists issued,
    onyxRequests (performAll ops w) = onyxRequests w ++ issued
    /\ length issued = length (filter (fun op => isMutation op) ops).
Proof.
  revert w. induction ops as [| op ops IH]; intros w.
  - exists []. by rewrite app_nil_r.
  - change (performAll (op :: ops) w) with (performAll ops (perform op w)).
    destruct (perform_requests op w) as (issued1 & Hop & Hlen1).
    destruct (IH (perform op w)) as (issued2 & Hrest & Hlen2).
    exists (issued1 ++ issued2).
    rewrite Hrest, Hop, app_assoc. split; [done |].
    rewrite length_app, Hlen1, Hlen2, filter_cons.
    destruct (isMutation op).
    + by rewrite decide_True.
    + by rewrite decide_False by (by intros []).
Qed.

(** ** Delivery, then count *)

(** X15: right after a delivery under a non-empty key, the count of deleted
    comments of that report is taken over the delivered actions alone, in
    whatever state the mirror was before. *)
Theorem delivered_actions_are_counted `{Imports} (w : World)
    (actions : Js.Object loc) (key : string) (threshold : Z) :
  key <> "" ->
  (getDeletedCommentsCount (extractCollectionItemID key) threshold
     (callback (Some actions) (Some key) w).2).1
  = Z.of_nat
      (length
         (filter (fun action => deletedCommentNotBelow threshold action)
            (deref (heap w) <$> Underscore.toArray actions))).
Proof.
  intros Hkey. rewrite getDeletedCommentsCount_run, callback_run by done.
  unfold mirrored. simpl. by rewrite lookup_insert_eq.
Qed.

Lemma delivered_actions_are_counted_witness :
  (getDeletedCommentsCount (H := demoImports)
     (extractCollectionItemID (Imports := demoImports) "reportActions_42") 0
     (callback (H := demoImports) (Some (allocObject report42Draft world42).1)
        (Some "reportActions_42") (allocObject report42Draft world42).2).2).1
  = 0.
Proof.
  rewrite (delivered_actions_are_counted (H := demoImports)
             (allocObject report42Draft world42).2
             (allocObject report42Draft world42).1 "reportActions_42" 0
             ltac:(discriminate)).
  vm_compute. reflexivity.
Defined.
